(** * SheetDAO: a spreadsheet tab used as a record store

    Shallow embedding of the [SheetDAO] class (constructor, [listAll], [find],
    [add], [update], [remove] and the private helpers) together with a model
    of the part of the spreadsheet platform the class talks to: one tab seen
    as a grid of cells, the script lock, and a log of the platform calls.

    Scope of the model.
    - A cell holds a string, a number or a boolean; an empty cell reads as the
      empty string.  Numbers are the integer-valued ones, with exact
      arithmetic: they stand for the numbers of the language as long as they
      stay within the safe integers, below 2^53 in absolute value.  A cell
      keeps the value that was written to it; this is also what the model
      does with a member of [Object.prototype] handed to the platform, of
      which the platform's treatment is not known.
    - The grid is the list of its rows, from row 1 down; rows and cells that
      are not listed are empty.  The last row and the last column are the
      last ones with content, as the platform reports them, and [appendRow]
      writes right under the last row with content.
    - A record is a plain JavaScript object: a finite map from property
      keys (strings) to values for its own properties, over the members that
      every object inherits from [Object.prototype].  Reading a key it does
      not own finds the inherited member of that name, and assigning to
      [__proto__] goes to the inherited setter and makes no property.
    - Whether the script lock can be taken before the timeout is an input of
      the world ([lockBusy]); time itself is not modelled.
    - Every platform call is logged in the world, so that what a method
      touched can be stated. *)

From Stdlib Require Import ZArith List Lia Bool Ascii String.
From stdpp Require Import gmap strings list fin_maps pretty.

Local Open Scope string_scope.
Local Open Scope list_scope.
Local Open Scope nat_scope.

(** ** JavaScript values *)

(** What a cell of the grid can hold: a string, a number or a boolean.  The
    class can also hand the platform a member it read from
    [Object.prototype], a function or that object itself; [CObject name] is
    the member of that name. *)
Inductive cell : Type :=
  | CStr (s : string)
  | CNum (n : Z)
  | CBool (b : bool)
  | CObject (name : string).

(** The values that flow through the class: the cell values, and the two
    nullish values. *)
Inductive value : Type :=
  | VUndefined
  | VNull
  | VCell (c : cell).

#[global] Instance cell_eq_dec : EqDecision cell.
Proof. solve_decision. Defined.

#[global] Instance value_eq_dec : EqDecision value.
Proof. solve_decision. Defined.

(** A record object: own properties only. *)
Abbreviation Record_ := (gmap string value).

(** The names of the members every object inherits. *)
Definition inheritedNames : list string :=
  ["constructor"; "__defineGetter__"; "__defineSetter__"; "hasOwnProperty";
   "__lookupGetter__"; "__lookupSetter__"; "isPrototypeOf";
   "propertyIsEnumerable"; "toString"; "valueOf"; "__proto__";
   "toLocaleString"].

Definition isInherited (key : string) : bool :=
  existsb (String.eqb key) inheritedNames.

(** The text of an inherited member: the prototype object itself under
    [__proto__], a native function under the other names. *)
Definition memberText (name : string) : string :=
  if String.eqb name "__proto__" then "[object Object]"
  else "function "
       ++ (if String.eqb name "constructor" then "Object" else name)
       ++ "() { [native code] }".

(** [String(v)]. *)
Definition ToString (v : value) : string :=
  match v with
  | VUndefined => "undefined"
  | VNull => "null"
  | VCell (CStr s) => s
  | VCell (CNum n) => pretty n
  | VCell (CBool true) => "true"
  | VCell (CBool false) => "false"
  | VCell (CObject name) => memberText name
  end.

(** The numeric reading of a string ([Number("12")]) belongs to the language
    runtime; the class only calls it.  It is an interface here, with the
    decimal integers as the instance used in the examples.  [None] is NaN. *)
Class NumericStrings := StringToNumber : string -> option Z.

(** [Number(v)]; [None] is NaN. *)
Definition ToNumber {numeric : NumericStrings} (v : value) : option Z :=
  match v with
  | VUndefined => None
  | VNull => Some 0%Z
  | VCell (CStr s) => StringToNumber s
  | VCell (CNum n) => Some n
  | VCell (CBool true) => Some 1%Z
  | VCell (CBool false) => Some 0%Z
  | VCell (CObject _) => None
  end.

(** [n || 0] on a number: NaN and 0 are the falsy numbers. *)
Definition orZero (n : option Z) : Z :=
  match n with
  | Some k => if (k =? 0)%Z then 0%Z else k
  | None => 0%Z
  end.

(** [v ?? ""]: the result is never nullish, so it is a cell value. *)
Definition orEmpty (v : value) : cell :=
  match v with
  | VUndefined | VNull => CStr ""
  | VCell c => c
  end.

(** [obj[key]]: an own property first, then the inherited member of that
    name; a key that is neither reads as [undefined]. *)
Definition getProp (obj : Record_) (key : string) : value :=
  match obj !! key with
  | Some v => v
  | None => if isInherited key then VCell (CObject key) else VUndefined
  end.

(** [{ ...base, ...ext }]: the properties of [ext] are copied over [base]. *)
Definition spread (base ext : Record_) : Record_ := ext ∪ base.

(** [arr[i]] on an array of cell values. *)
Definition index (arr : list cell) (i : nat) : value :=
  match arr !! i with
  | Some c => VCell c
  | None => VUndefined
  end.

(** *** Decimal integers as numeric strings *)

(** The instance of the examples: it reads the strings made of spaces, a
    sign and decimal digits, and the empty string; the other numerals of the
    language (fractions, exponents, hexadecimal) are outside it. *)

Definition isSpace (a : ascii) : bool :=
  let n := nat_of_ascii a in
  (n =? 32) || ((9 <=? n) && (n <=? 13)).

Definition digitOf (a : ascii) : option Z :=
  let n := nat_of_ascii a in
  if (48 <=? n) && (n <=? 57) then Some (Z.of_nat (n - 48)) else None.

Fixpoint dropSpaces (l : list ascii) : list ascii :=
  match l with
  | a :: r => if isSpace a then dropSpaces r else l
  | [] => []
  end.

Definition trimSpaces (l : list ascii) : list ascii :=
  rev (dropSpaces (rev (dropSpaces l))).

Fixpoint digitsValue (acc : Z) (l : list ascii) : option Z :=
  match l with
  | [] => Some acc
  | a :: r =>
      match digitOf a with
      | Some d => digitsValue (10 * acc + d)%Z r
      | None => None
      end
  end.

Definition unsignedValue (l : list ascii) : option Z :=
  match l with
  | [] => None
  | _ => digitsValue 0%Z l
  end.

Definition decimalValue (s : string) : option Z :=
  match trimSpaces (list_ascii_of_string s) with
  | [] => Some 0%Z
  | a :: r =>
      if Ascii.eqb a "-"%char then Z.opp <$> unsignedValue r
      else if Ascii.eqb a "+"%char then unsignedValue r
      else unsignedValue (a :: r)
  end.

Definition decimalStrings : NumericStrings := decimalValue.

(** ** The grid *)

(** Rows from row 1 down, each with its cells from column 1 on. *)
Abbreviation Row := (list cell).
Abbreviation Sheet := (list (list cell)).

Definition blank : cell := CStr "".

Definition isBlank (c : cell) : bool :=
  match c with
  | CStr EmptyString => true
  | _ => false
  end.

Definition hasContent (r : Row) : bool := existsb (fun c => negb (isBlank c)) r.

(** Position of the last row that has content, 0 when there is none. *)
Fixpoint lastRowOf (s : Sheet) : nat :=
  match s with
  | [] => 0
  | r :: rest =>
      match lastRowOf rest with
      | O => if hasContent r then 1 else 0
      | S n => S (S n)
      end
  end.

(** Position of the last cell of a row that has content. *)
Fixpoint lastCellOf (r : Row) : nat :=
  match r with
  | [] => 0
  | c :: rest =>
      match lastCellOf rest with
      | O => if isBlank c then 0 else 1
      | S n => S (S n)
      end
  end.

Definition lastColumnOf (s : Sheet) : nat :=
  foldr (fun r m => Nat.max (lastCellOf r) m) 0 s.

(** Rows and columns are numbered from 1, as in the platform. *)
Definition rowAt (s : Sheet) (row : nat) : Row := nth (row - 1) s [].

Definition cellAt (s : Sheet) (row col : nat) : cell :=
  nth (col - 1) (rowAt s row) blank.

Definition readRow (s : Sheet) (row col numCols : nat) : Row :=
  map (fun j => cellAt s row (col + j)) (seq 0 numCols).

Definition readRange (s : Sheet) (row col numRows numCols : nat) : list Row :=
  map (fun i => readRow s (row + i) col numCols) (seq 0 numRows).

Definition padTo {A} (n : nat) (d : A) (l : list A) : list A :=
  l ++ repeat d (n - length l).

Definition writeCells (r : Row) (col : nat) (vals : Row) : Row :=
  take (col - 1) (padTo (col - 1) blank r) ++ vals
    ++ drop (col - 1 + length vals) r.

Definition writeRow (s : Sheet) (row col : nat) (vals : Row) : Sheet :=
  let s' := padTo row [] s in
  <[row - 1 := writeCells (rowAt s' row) col vals]> s'.

Fixpoint writeRange (s : Sheet) (row col : nat) (vals : list Row) : Sheet :=
  match vals with
  | [] => s
  | v :: rest => writeRange (writeRow s row col v) (S row) col rest
  end.

(** The new row goes right under the last row with content. *)
Definition appendRowTo (s : Sheet) (vals : Row) : Sheet :=
  take (lastRowOf s) s ++ [vals].

Definition deleteRowOf (s : Sheet) (row : nat) : Sheet :=
  take (row - 1) s ++ drop row s.

(** ** The world: the tab, the script lock and the log of platform calls *)

Inductive Event : Type :=
  | EvGetSheetByName (name : string)
  | EvGetLastRow
  | EvGetLastColumn
  | EvGetValues (row col numRows numCols : nat)
  | EvSetValues (row col numRows numCols : nat)
  | EvAppendRow
  | EvDeleteRow (row : nat)
  | EvWaitLock (timeoutInMillis : Z)
  | EvReleaseLock.

(** An event that writes to the tab. *)
Definition writesSheet (ev : Event) : bool :=
  match ev with
  | EvSetValues _ _ _ _ | EvAppendRow | EvDeleteRow _ => true
  | _ => false
  end.

Record World : Type := mkWorld {
  tabName : string;   (* the name of the tab the file has *)
  sheet : Sheet;      (* its cells *)
  lockHeld : bool;    (* this execution holds the script lock *)
  lockBusy : bool;    (* the lock stays taken by others for the whole wait *)
  trace : list Event  (* the platform calls made so far, oldest first *)
}.

Definition logEvent (ev : Event) (w : World) : World :=
  mkWorld (tabName w) (sheet w) (lockHeld w) (lockBusy w) (trace w ++ [ev]).

Definition setSheet (s : Sheet) (w : World) : World :=
  mkWorld (tabName w) s (lockHeld w) (lockBusy w) (trace w).

Definition setLockHeld (b : bool) (w : World) : World :=
  mkWorld (tabName w) (sheet w) b (lockBusy w) (trace w).

(** What a call can throw. *)
Inductive Error : Type :=
  | SheetNotFound (sheetName : string)
  | SheetIsEmpty (sheetName : string)
  | LockTimeout
  | InvalidRange.

Inductive Outcome (A : Type) : Type :=
  | Return (a : A)
  | Throw (e : Error).
Arguments Return {A} a.
Arguments Throw {A} e.

(** Code that runs against the world and returns or throws. *)
Definition M (A : Type) : Type := World -> Outcome A * World.

Definition ret {A} (a : A) : M A := fun w => (Return a, w).

Definition throw {A} (e : Error) : M A := fun w => (Throw e, w).

Definition bindM {A B} (m : M A) (k : A -> M B) : M B :=
  fun w =>
    match m w with
    | (Return a, w') => k a w'
    | (Throw e, w') => (Throw e, w')
    end.

(** [try { body } finally { cleanup }]: the cleanup runs on every way out of
    the body; what the body returned or threw is kept unless the cleanup
    itself throws. *)
Definition tryFinally {A} (body : M A) (cleanup : M unit) : M A :=
  fun w =>
    match body w with
    | (r, w') =>
        match cleanup w' with
        | (Return _, w'') => (r, w'')
        | (Throw e, w'') => (Throw e, w'')
        end
    end.

Notation "'let!' x ':=' c 'in' k" := (bindM c (fun x => k))
  (at level 10, x name, c at level 100, k at level 200).
Notation "'run!' c 'in' k" := (bindM c (fun _ => k))
  (at level 10, c at level 100, k at level 200).

(** *** The platform calls the class makes *)

Definition getSheetByName (name : string) : M bool :=
  fun w => (Return (String.eqb name (tabName w)), logEvent (EvGetSheetByName name) w).

Definition getLastRow : M nat :=
  fun w => (Return (lastRowOf (sheet w)), logEvent EvGetLastRow w).

Definition getLastColumn : M nat :=
  fun w => (Return (lastColumnOf (sheet w)), logEvent EvGetLastColumn w).

Definition validRange (row col numRows numCols : nat) : bool :=
  (1 <=? row) && (1 <=? col) && (1 <=? numRows) && (1 <=? numCols).

(** [getRange(row, col, numRows, numCols).getValues()] *)
Definition getValues (row col numRows numCols : nat) : M (list Row) :=
  fun w =>
    let w' := logEvent (EvGetValues row col numRows numCols) w in
    if validRange row col numRows numCols
    then (Return (readRange (sheet w) row col numRows numCols), w')
    else (Throw InvalidRange, w').

(** [getRange(row, col).getValue()] *)
Definition getValue (row col : nat) : M cell :=
  fun w =>
    let w' := logEvent (EvGetValues row col 1 1) w in
    if validRange row col 1 1
    then (Return (cellAt (sheet w) row col), w')
    else (Throw InvalidRange, w').

Definition fitsRange (numRows numCols : nat) (vals : list Row) : bool :=
  (length vals =? numRows) && forallb (fun r => length r =? numCols) vals.

(** [getRange(row, col, numRows, numCols).setValues(vals)] *)
Definition setValues (row col numRows numCols : nat) (vals : list Row) : M unit :=
  fun w =>
    let w' := logEvent (EvSetValues row col numRows numCols) w in
    if validRange row col numRows numCols && fitsRange numRows numCols vals
    then (Return tt, setSheet (writeRange (sheet w) row col vals) w')
    else (Throw InvalidRange, w').

Definition appendRow (vals : Row) : M unit :=
  fun w => (Return tt, setSheet (appendRowTo (sheet w) vals) (logEvent EvAppendRow w)).

Definition deleteRow (row : nat) : M unit :=
  fun w =>
    let w' := logEvent (EvDeleteRow row) w in
    if 1 <=? row
    then (Return tt, setSheet (deleteRowOf (sheet w) row) w')
    else (Throw InvalidRange, w').

(** [lock.waitLock(ms)]: throws when the lock cannot be taken in time. *)
Definition waitLock (timeoutInMillis : Z) : M unit :=
  fun w =>
    let w' := logEvent (EvWaitLock timeoutInMillis) w in
    if lockBusy w then (Throw LockTimeout, w') else (Return tt, setLockHeld true w').

Definition releaseLock : M unit :=
  fun w => (Return tt, setLockHeld false (logEvent EvReleaseLock w)).

(** ** The class *)

Record SheetDAO : Type := mkSheetDAO {
  lastCol : nat;
  headers : Row
}.

(** [new SheetDAO(sheetId, sheetName)] *)
Definition constructor (sheetName : string) : M SheetDAO :=
  let! found := getSheetByName sheetName in
  if negb found then throw (SheetNotFound sheetName)
  else
    let! lc := getLastColumn in
    if lc =? 0 then throw (SheetIsEmpty sheetName)
    else
      let! vals := getValues 1 1 1 lc in
      ret (mkSheetDAO lc (nth 0 vals [])).

(** [obj[key] = rowArray[index]] makes or replaces an own property, except
    under the key [__proto__]: there the assignment goes to the inherited
    setter, which ignores a value that is no object, as the strings, numbers
    and booleans read from the tab are, and [obj] gets no property. *)
Definition _toObject (this : SheetDAO) (rowArray : Row) : Record_ :=
  fold_left
    (fun obj '(i, key) =>
       if String.eqb (ToString (VCell key)) "__proto__" then obj
       else <[ToString (VCell key) := index rowArray i]> obj)
    (imap pair (headers this)) ∅.

Definition _toRowArray (this : SheetDAO) (obj : Record_) : Row :=
  map (fun key => orEmpty (getProp obj (ToString (VCell key)))) (headers this).

(** The body of the [for] loop of [_getRowIndexById], from index [i] on:
    [rows] are the entries [i], [i+1], ... of [idColumnValues]. *)
Fixpoint scanFrom (rows : list Row) (i : nat) (stringId : string) : option nat :=
  match rows with
  | [] => None
  | row :: rest =>
      if String.eqb (ToString (index row 0)) stringId
      then Some (i + 1)
      else scanFrom rest (S i) stringId
  end.

Definition _getRowIndexById (this : SheetDAO) (id : value) : M (option nat) :=
  let! lastRow := getLastRow in
  if lastRow <=? 1 then ret None
  else
    let! idColumnValues := getValues 1 1 lastRow 1 in
    let stringId := ToString id in
    ret (scanFrom (drop 1 idColumnValues) 1 stringId).

Definition _getObjectByRowIndex (this : SheetDAO) (rowIndex : nat) : M Record_ :=
  let! vals := getValues rowIndex 1 1 (lastCol this) in
  ret (_toObject this (nth 0 vals [])).

Definition listAll (this : SheetDAO) : M (list Record_) :=
  let! lastRow := getLastRow in
  if lastRow <=? 1 then ret []
  else
    let! values := getValues 2 1 (lastRow - 1) (lastCol this) in
    ret (map (_toObject this) values).

(** [null] and 0 are the falsy row indexes. *)
Definition find (this : SheetDAO) (id : value) : M (option Record_) :=
  let! rowIndex := _getRowIndexById this id in
  match rowIndex with
  | Some (S n) =>
      let! obj := _getObjectByRowIndex this (S n) in
      ret (Some obj)
  | _ => ret None
  end.

Definition add {numeric : NumericStrings} (this : SheetDAO) (data : Record_) : M Record_ :=
  tryFinally
    (run! waitLock 30000 in
     let! lastRow := getLastRow in
     let idKey := index (headers this) 0 in
     let! lastId :=
       (if lastRow <=? 1 then ret (CNum 0) else getValue lastRow 1) in
     let newId := (orZero (ToNumber (VCell lastId)) + 1)%Z in
     let newRecord := spread {[ ToString idKey := VCell (CNum newId) ]} data in
     let rowValue := _toRowArray this newRecord in
     run! appendRow rowValue in
     ret newRecord)
    releaseLock.

Definition update (this : SheetDAO) (id : value) (data : Record_) : M bool :=
  tryFinally
    (run! waitLock 30000 in
     let! rowIndex := _getRowIndexById this id in
     match rowIndex with
     | Some (S n) =>
         let! currentRecord := _getObjectByRowIndex this (S n) in
         let updatedRecord := spread currentRecord data in
         let rowValue := _toRowArray this updatedRecord in
         run! setValues (S n) 1 1 (lastCol this) [rowValue] in
         ret true
     | _ => ret false
     end)
    releaseLock.

Definition remove (this : SheetDAO) (id : value) : M bool :=
  let! rowIndex := _getRowIndexById this id in
  match rowIndex with
  | Some (S n) =>
      run! deleteRow (S n) in
      ret true
  | _ => ret false
  end.

(** ** What the operations compute, without the world *)

Definition logEvents (evs : list Event) (w : World) : World :=
  mkWorld (tabName w) (sheet w) (lockHeld w) (lockBusy w) (trace w ++ evs).

(** The identifier of a data row, as the lookup compares it. *)
Definition idAt (s : Sheet) (row : nat) : string :=
  ToString (VCell (cellAt s row 1)).

(** The data rows are the rows 2 .. last row with content. *)
Definition isDataRow (s : Sheet) (row : nat) : Prop :=
  2 <= row <= lastRowOf s.

Definition matchesAt (s : Sheet) (id : value) (row : nat) : Prop :=
  isDataRow s row /\ idAt s row = ToString id.

Definition firstMatch (s : Sheet) (id : value) (row : nat) : Prop :=
  matchesAt s id row /\ forall r, 2 <= r < row -> idAt s r <> ToString id.

Definition noMatch (s : Sheet) (id : value) : Prop :=
  forall r, isDataRow s r -> idAt s r <> ToString id.

(** The result of [_getRowIndexById] and the calls it makes. *)
Definition rowIndexOf (s : Sheet) (id : value) : option nat :=
  if lastRowOf s <=? 1 then None
  else scanFrom (drop 1 (readRange s 1 1 (lastRowOf s) 1)) 1 (ToString id).

Definition lookupEvents (s : Sheet) : list Event :=
  if lastRowOf s <=? 1 then [EvGetLastRow]
  else [EvGetLastRow; EvGetValues 1 1 (lastRowOf s) 1].

(** The record a row is read as. *)
Definition recordAt (this : SheetDAO) (s : Sheet) (row : nat) : Record_ :=
  _toObject this (readRow s row 1 (lastCol this)).

(** The property key a header cell is used as. *)
Definition keyOf (key : cell) : string := ToString (VCell key).

(** The property keys of the header, in column order. *)
Definition fieldNames (this : SheetDAO) : list string :=
  map keyOf (headers this).

(** One round of the [reduce] of [_toObject]. *)
Definition setField (rowArray : Row) (obj : Record_) (p : nat * cell) : Record_ :=
  let '(i, key) := p in
  if String.eqb (ToString (VCell key)) "__proto__" then obj
  else <[ToString (VCell key) := index rowArray i]> obj.

(** The same round, on the column [n] named by the cell [h]. *)
Definition afterField (rowArray : Row) (n : nat) (h : cell) (acc : Record_) : Record_ :=
  if String.eqb (keyOf h) "__proto__" then acc
  else <[keyOf h := index rowArray n]> acc.

Definition idField (this : SheetDAO) : string :=
  ToString (index (headers this) 0).

(** The identifier [add] computes: one more than the number in the
    identifier cell of the last row, 0 standing for a tab without data rows
    and for a cell that is not a number. *)
Definition nextId {numeric : NumericStrings} (s : Sheet) : Z :=
  let lastId := if lastRowOf s <=? 1 then CNum 0 else cellAt s (lastRowOf s) 1 in
  (orZero (ToNumber (VCell lastId)) + 1)%Z.

(** The record [add] builds from its input. *)
Definition newRecordOf {numeric : NumericStrings} (this : SheetDAO) (s : Sheet)
    (data : Record_) : Record_ :=
  spread {[ idField this := VCell (CNum (nextId s)) ]} data.

Definition addEvents (s : Sheet) : list Event :=
  [EvWaitLock 30000; EvGetLastRow]
  ++ (if lastRowOf s <=? 1 then [] else [EvGetValues (lastRowOf s) 1 1 1])
  ++ [EvAppendRow; EvReleaseLock].

(** The world a locked method leaves: the lock is released. *)
Definition finish (s : Sheet) (evs : list Event) (w : World) : World :=
  mkWorld (tabName w) s false (lockBusy w) (trace w ++ evs).

(** What the constructor guarantees about the instance. *)
Definition wfDAO (this : SheetDAO) : Prop :=
  lastCol this <> 0 /\ length (headers this) = lastCol this.

(** The tab has its header row. *)
Definition hasHeaderRow (s : Sheet) : Prop := 1 <= lastRowOf s.

(** A caller making one [add] call per input, in order. *)
Fixpoint addAll {numeric : NumericStrings} (this : SheetDAO) (inputs : list Record_)
    : M (list Record_) :=
  match inputs with
  | [] => ret []
  | data :: rest =>
      let! r := add this data in
      let! rs := addAll this rest in
      ret (r :: rs)
  end.

(** [create(sheetId, sheetName)], the entry point for callers that use the
    class as a library.  The world has the one file, so the file identifier
    selects nothing here. *)
Definition create (sheetId sheetName : string) : M SheetDAO :=
  constructor sheetName.

(** A call on the script lock. *)
Definition isLockEvent (ev : Event) : bool :=
  match ev with
  | EvWaitLock _ | EvReleaseLock => true
  | _ => false
  end.

(** The calls [listAll] makes. *)
Definition listEvents (this : SheetDAO) (s : Sheet) : list Event :=
  if lastRowOf s <=? 1 then [EvGetLastRow]
  else [EvGetLastRow; EvGetValues 2 1 (lastRowOf s - 1) (lastCol this)].

(** The records of the data rows, top to bottom. *)
Definition recordsOf (this : SheetDAO) (s : Sheet) : list Record_ :=
  map (recordAt this s) (seq 2 (lastRowOf s - 1)).

(** No two columns of the header have the same name. *)
Definition distinctFields (this : SheetDAO) : Prop := NoDup (fieldNames this).

(** No column of the header is named [__proto__]. *)
Definition protoFree (this : SheetDAO) : Prop := "__proto__" ∉ fieldNames this.

(** No column of the header has the name of a member every object
    inherits. *)
Definition plainFields (this : SheetDAO) : Prop :=
  forall k, k ∈ fieldNames this -> isInherited k = false.

(** No cell of the tab has content. *)
Definition emptyTab (s : Sheet) : Prop :=
  forall r, r ∈ s -> hasContent r = false.

(** ** Example tables *)

(** An object literal with distinct keys. *)
Definition object (props : list (string * value)) : Record_ := list_to_map props.

Definition str (s : string) : value := VCell (CStr s).
Definition num (n : Z) : value := VCell (CNum n).

Definition peopleHeader : Row := [CStr "id"; CStr "name"; CStr "age"].

(** An instance bound to a tab with the columns id, name, age. *)
Definition people : SheetDAO := mkSheetDAO 3 peopleHeader.

(** The tab with the given data rows; the lock is free. *)
Definition peopleTab (rows : list Row) : World :=
  mkWorld "people" (peopleHeader :: rows) false false [].

(** The same tab while another execution keeps the lock. *)
Definition peopleTabBusy (rows : list Row) : World :=
  mkWorld "people" (peopleHeader :: rows) false true [].

Definition ann : Row := [CNum 1; CStr "Ann"; CNum 30].
Definition bo : Row := [CNum 2; CStr "Bo"; CStr ""].
Definition cy : Row := [CStr "5"; CStr "Cy"; CNum 7].
Definition dee : Row := [CNum 5; CStr "Dee"; CNum 9].

(** ** The grid: basic facts *)

Section Grid.

Lemma nth_take_lt {A} (l : list A) (n i : nat) (d : A) :
  i < n -> nth i (take n l) d = nth i l d.
Proof.
  revert n i. induction l as [|x l IH]; intros [|n] [|i] Hi; simpl; try done; try lia.
  apply IH. lia.
Qed.

Lemma nth_drop_add {A} (l : list A) (n i : nat) (d : A) :
  nth i (drop n l) d = nth (n + i) l d.
Proof.
  revert n. induction l as [|x l IH]; intros [|n]; simpl; try done.
  by destruct i.
Qed.

Lemma rowAt_nil (row : nat) : rowAt [] row = [].
Proof. unfold rowAt. by destruct (row - 1). Qed.

Lemma rowAt_cons (r : Row) (s : Sheet) (row : nat) :
  2 <= row -> rowAt (r :: s) row = rowAt s (row - 1).
Proof.
  intros Hrow. unfold rowAt.
  destruct row as [|[|row]]; [lia | lia |]. simpl.
  by rewrite Nat.sub_0_r.
Qed.

Lemma lastRowOf_le_length (s : Sheet) : lastRowOf s <= length s.
Proof.
  induction s as [|r s IH]; simpl; [lia |].
  destruct (lastRowOf s); [destruct (hasContent r) |]; lia.
Qed.

Lemma lastRowOf_content (s : Sheet) :
  lastRowOf s <> 0 -> hasContent (rowAt s (lastRowOf s)) = true.
Proof.
  induction s as [|r s IH]; simpl; [done |].
  destruct (lastRowOf s) as [|n] eqn:Hlast.
  - destruct (hasContent r) eqn:Hr; [done | done].
  - intros _. rewrite rowAt_cons by lia.
    replace (S (S n) - 1) with (S n) by lia. by apply IH.
Qed.

Lemma lastRowOf_max (s : Sheet) (row : nat) :
  1 <= row -> hasContent (rowAt s row) = true -> row <= lastRowOf s.
Proof.
  revert row. induction s as [|r s IH]; intros row Hrow Hc.
  - by rewrite rowAt_nil in Hc.
  - simpl. destruct (decide (row = 1)) as [->|Hne].
    + unfold rowAt in Hc. simpl in Hc. rewrite Hc.
      destruct (lastRowOf s); lia.
    + rewrite rowAt_cons in Hc by lia.
      apply IH in Hc; [|lia].
      destruct (lastRowOf s); lia.
Qed.

Lemma lastRowOf_snoc (s : Sheet) (vals : Row) :
  hasContent vals = true -> lastRowOf (s ++ [vals]) = S (length s).
Proof.
  intros Hc. induction s as [|r s IH]; simpl.
  - by rewrite Hc.
  - by rewrite IH.
Qed.

Lemma length_take_lastRow (s : Sheet) :
  length (take (lastRowOf s) s) = lastRowOf s.
Proof. rewrite length_take. pose proof (lastRowOf_le_length s). lia. Qed.

Lemma lastRowOf_append (s : Sheet) (vals : Row) :
  hasContent vals = true -> lastRowOf (appendRowTo s vals) = S (lastRowOf s).
Proof.
  intros Hc. unfold appendRowTo.
  by rewrite lastRowOf_snoc, length_take_lastRow.
Qed.

Lemma rowAt_append_old (s : Sheet) (vals : Row) (row : nat) :
  1 <= row <= lastRowOf s -> rowAt (appendRowTo s vals) row = rowAt s row.
Proof.
  intros Hrow. unfold appendRowTo, rowAt.
  rewrite app_nth1 by (rewrite length_take_lastRow; lia).
  apply nth_take_lt. lia.
Qed.

Lemma rowAt_append_new (s : Sheet) (vals : Row) :
  rowAt (appendRowTo s vals) (S (lastRowOf s)) = vals.
Proof.
  unfold appendRowTo, rowAt.
  rewrite app_nth2 by (rewrite length_take_lastRow; lia).
  rewrite length_take_lastRow.
  replace (S (lastRowOf s) - 1 - lastRowOf s) with 0 by lia. done.
Qed.

Lemma rowAt_delete_before (s : Sheet) (row r : nat) :
  1 <= r < row -> rowAt (deleteRowOf s row) r = rowAt s r.
Proof.
  intros Hr. unfold deleteRowOf, rowAt.
  destruct (decide (r <= length s)) as [Hin|Hout].
  - rewrite app_nth1 by (rewrite length_take; lia).
    apply nth_take_lt. lia.
  - rewrite !nth_overflow; [done | lia |].
    rewrite length_app, length_take, length_drop. lia.
Qed.

Lemma rowAt_delete_after (s : Sheet) (row r : nat) :
  1 <= row <= r -> rowAt (deleteRowOf s row) r = rowAt s (S r).
Proof.
  intros Hr. unfold deleteRowOf, rowAt.
  destruct (decide (row <= length s)) as [Hin|Hout].
  - rewrite app_nth2 by (rewrite length_take; lia).
    rewrite length_take.
    rewrite nth_drop_add. f_equal. lia.
  - rewrite !nth_overflow; [done | lia |].
    rewrite length_app, length_take, length_drop. lia.
Qed.

Lemma lastRowOf_delete (s : Sheet) (row : nat) :
  1 <= row <= lastRowOf s -> lastRowOf (deleteRowOf s row) < lastRowOf s.
Proof.
  intros Hrow.
  destruct (decide (lastRowOf (deleteRowOf s row) = 0)) as [Hz|Hnz]; [lia |].
  pose proof (lastRowOf_content _ Hnz) as Hc.
  destruct (decide (lastRowOf (deleteRowOf s row) < row)) as [Hlt|Hge]; [lia |].
  rewrite rowAt_delete_after in Hc by lia.
  apply lastRowOf_max in Hc; lia.
Qed.

Lemma length_readRow (s : Sheet) (row col n : nat) :
  length (readRow s row col n) = n.
Proof. unfold readRow. by rewrite length_map, length_seq. Qed.

Lemma readRow_exact (s : Sheet) (row : nat) :
  readRow s row 1 (length (rowAt s row)) = rowAt s row.
Proof.
  unfold readRow, cellAt. generalize (rowAt s row). intros r.
  apply nth_ext with (d := blank) (d' := blank).
  - by rewrite length_map, length_seq.
  - intros i Hi. rewrite length_map, length_seq in Hi.
    rewrite (nth_indep _ blank (nth (1 + 0 - 1) r blank)) by (rewrite length_map, length_seq; lia).
    rewrite (map_nth (fun j => nth (1 + j - 1) r blank)).
    rewrite seq_nth by lia. f_equal. lia.
Qed.

Lemma writeCells_first (r vals : Row) :
  writeCells r 1 vals = vals ++ drop (length vals) r.
Proof. done. Qed.

Lemma padTo_enough {A} (n : nat) (d : A) (l : list A) :
  n <= length l -> padTo n d l = l.
Proof.
  intros Hn. unfold padTo. replace (n - length l) with 0 by lia.
  simpl. by rewrite app_nil_r.
Qed.

Lemma writeRow_inside (s : Sheet) (row : nat) (vals : Row) :
  1 <= row <= length s ->
  writeRow s row 1 vals = <[row - 1 := vals ++ drop (length vals) (rowAt s row)]> s.
Proof.
  intros Hrow. unfold writeRow. rewrite padTo_enough by lia.
  by rewrite writeCells_first.
Qed.

Lemma rowAt_insert_same (s : Sheet) (row : nat) (x : Row) :
  1 <= row <= length s -> rowAt (<[row - 1 := x]> s) row = x.
Proof.
  intros Hrow. unfold rowAt. rewrite nth_lookup.
  rewrite list_lookup_insert_eq by lia. done.
Qed.

Lemma rowAt_insert_other (s : Sheet) (row r : nat) (x : Row) :
  1 <= row -> 1 <= r -> r <> row -> rowAt (<[row - 1 := x]> s) r = rowAt s r.
Proof.
  intros Hrow Hr Hne. unfold rowAt. rewrite !nth_lookup.
  rewrite list_lookup_insert_ne by lia. done.
Qed.

Lemma readRow_prefix (s : Sheet) (row : nat) (vals rest : Row) :
  rowAt s row = vals ++ rest -> readRow s row 1 (length vals) = vals.
Proof.
  intros Heq. unfold readRow, cellAt. rewrite Heq.
  apply nth_ext with (d := blank) (d' := blank).
  - by rewrite length_map, length_seq.
  - intros i Hi. rewrite length_map, length_seq in Hi.
    rewrite (nth_indep _ blank (nth (1 + 0 - 1) (vals ++ rest) blank))
      by (rewrite length_map, length_seq; lia).
    rewrite (map_nth (fun j => nth (1 + j - 1) (vals ++ rest) blank)).
    rewrite seq_nth by lia. rewrite app_nth1 by lia. f_equal. lia.
Qed.

End Grid.

(** ** Records and rows *)

Section Records.

Variable this : SheetDAO.

Lemma toObject_unfold (rowArray : Row) :
  _toObject this rowArray
  = fold_left (setField rowArray) (imap (fun i key => (0 + i, key)) (headers this)) ∅.
Proof. done. Qed.

Lemma imap_shift (n : nat) (hs : Row) :
  imap ((fun i key => (n + i, key)) ∘ S) hs = imap (fun i key => (S n + i, key)) hs.
Proof. apply imap_ext. intros i x _. simpl. f_equal. lia. Qed.

Lemma fold_step_cons (rowArray : Row) (h : cell) (t : Row) (n : nat) (acc : Record_) :
  fold_left (setField rowArray) (imap (fun i key => (n + i, key)) (h :: t)) acc
  = fold_left (setField rowArray) (imap (fun i key => (S n + i, key)) t)
      (afterField rowArray (n + 0) h acc).
Proof. cbn [imap fold_left]. by rewrite imap_shift. Qed.

Lemma afterField_other (rowArray : Row) (n : nat) (h : cell) (acc : Record_) (k : string) :
  keyOf h <> k -> afterField rowArray n h acc !! k = acc !! k.
Proof.
  intros Hne. unfold afterField.
  destruct (String.eqb (keyOf h) "__proto__"); [done |]. by apply lookup_insert_ne.
Qed.

Lemma afterField_proto (rowArray : Row) (n : nat) (h : cell) (acc : Record_) :
  afterField rowArray n h acc !! "__proto__" = acc !! "__proto__".
Proof.
  unfold afterField. destruct (String.eqb_spec (keyOf h) "__proto__") as [Heq|Hne]; [done |].
  by apply lookup_insert_ne.
Qed.

Lemma afterField_same (rowArray : Row) (n : nat) (h : cell) (acc : Record_) :
  keyOf h <> "__proto__" ->
  afterField rowArray n h acc !! keyOf h = Some (index rowArray n).
Proof.
  intros Hne. unfold afterField.
  rewrite (proj2 (String.eqb_neq _ _) Hne). apply lookup_insert_eq.
Qed.

Lemma fold_step_notin (rowArray hs : Row) (n : nat) (acc : Record_) (k : string) :
  k ∉ map keyOf hs ->
  fold_left (setField rowArray) (imap (fun i key => (n + i, key)) hs) acc !! k = acc !! k.
Proof.
  revert n acc. induction hs as [|h t IH]; intros n acc Hk; [done |].
  rewrite fold_step_cons. cbn [map] in Hk.
  apply not_elem_of_cons in Hk as [Hne Hk].
  rewrite IH by done. by apply afterField_other.
Qed.

(** No record read from a row has the key [__proto__]. *)
Lemma fold_step_proto (rowArray hs : Row) (n : nat) (acc : Record_) :
  fold_left (setField rowArray) (imap (fun i key => (n + i, key)) hs) acc !! "__proto__"
  = acc !! "__proto__".
Proof.
  revert n acc. induction hs as [|h t IH]; intros n acc; [done |].
  rewrite fold_step_cons, IH. apply afterField_proto.
Qed.

Lemma fold_step_in (rowArray hs : Row) (n : nat) (acc : Record_) (k : string) :
  k ∈ map keyOf hs -> k <> "__proto__" ->
  exists i key, hs !! i = Some key /\ keyOf key = k /\
    fold_left (setField rowArray) (imap (fun i key => (n + i, key)) hs) acc !! k
    = Some (index rowArray (n + i)).
Proof.
  intros Hk Hproto. revert n acc. induction hs as [|h t IH]; intros n acc.
  - by apply elem_of_nil in Hk.
  - rewrite fold_step_cons. cbn [map] in Hk.
    destruct (decide (k ∈ map keyOf t)) as [Hin|Hout].
    + destruct (IH Hin (S n) (afterField rowArray (n + 0) h acc))
        as (i & key & Hi & Hkey & Hres).
      exists (S i), key. split; [done |]. split; [done |].
      rewrite Hres. do 2 f_equal. lia.
    + rewrite fold_step_notin by done.
      exists 0, h. split; [done |].
      apply elem_of_cons in Hk as [Hk|Hk]; [|done].
      split; [done |]. rewrite Hk. apply afterField_same. by rewrite <- Hk.
Qed.

Lemma toObject_lookup_in (rowArray : Row) (k : string) :
  k ∈ fieldNames this -> k <> "__proto__" ->
  exists i key, headers this !! i = Some key /\ keyOf key = k /\
    _toObject this rowArray !! k = Some (index rowArray i).
Proof. intros Hk Hproto. rewrite toObject_unfold. by apply fold_step_in. Qed.

Lemma toObject_lookup_notin (rowArray : Row) (k : string) :
  k ∉ fieldNames this -> _toObject this rowArray !! k = None.
Proof. intros Hk. rewrite toObject_unfold. by rewrite fold_step_notin. Qed.

Lemma toObject_lookup_proto (rowArray : Row) :
  _toObject this rowArray !! "__proto__" = None.
Proof. rewrite toObject_unfold. by rewrite fold_step_proto. Qed.

(** The keys of a record read from a row: the header names, [__proto__]
    apart. *)
Lemma toObject_is_Some (rowArray : Row) (k : string) :
  is_Some (_toObject this rowArray !! k) <-> k ∈ fieldNames this /\ k <> "__proto__".
Proof.
  split.
  - intros Hs. split.
    + destruct (decide (k ∈ fieldNames this)) as [|Hout]; [done |].
      rewrite toObject_lookup_notin in Hs by done. by destruct Hs.
    + intros ->. rewrite toObject_lookup_proto in Hs. by destruct Hs.
  - intros [Hin Hproto].
    destruct (toObject_lookup_in rowArray k Hin Hproto) as (i & key & _ & _ & ->).
    by eexists.
Qed.

Lemma index_lt (rowArray : Row) (i : nat) :
  i < length rowArray -> exists c, index rowArray i = VCell c.
Proof.
  intros Hi. unfold index.
  destruct (lookup_lt_is_Some_2 rowArray i Hi) as [c ->]. by exists c.
Qed.

(** A row as wide as the header is read as a record of cell values. *)
Lemma toObject_cells (rowArray : Row) (k : string) (v : value) :
  length (headers this) <= length rowArray ->
  _toObject this rowArray !! k = Some v -> exists c, v = VCell c.
Proof.
  intros Hlen Hv.
  assert (k ∈ fieldNames this /\ k <> "__proto__") as [Hin Hproto]
    by (apply (toObject_is_Some rowArray); by eexists).
  destruct (toObject_lookup_in rowArray k Hin Hproto) as (i & key & Hi & _ & Hres).
  rewrite Hres in Hv. injection Hv as <-.
  apply index_lt. apply lookup_lt_Some in Hi. lia.
Qed.

Lemma length_toRowArray (obj : Record_) :
  length (_toRowArray this obj) = length (headers this).
Proof. unfold _toRowArray. by rewrite length_map. Qed.

Lemma index_toRowArray (obj : Record_) (i : nat) (key : cell) :
  headers this !! i = Some key ->
  index (_toRowArray this obj) i = VCell (orEmpty (getProp obj (keyOf key))).
Proof.
  intros Hi. unfold index, _toRowArray.
  change (map ?f ?l) with (f <$> l). by rewrite list_lookup_fmap, Hi.
Qed.

(** Reading back the row an object was written as: every header field but
    [__proto__] is there, with what reading the object under that name
    gives, the empty string standing for a nullish value. *)
Lemma toObject_toRowArray_lookup (obj : Record_) (k : string) :
  _toObject this (_toRowArray this obj) !! k
  = if decide (k ∈ fieldNames this /\ k <> "__proto__")
    then Some (VCell (orEmpty (getProp obj k)))
    else None.
Proof.
  case_decide as Hk.
  - destruct Hk as [Hk Hproto].
    destruct (toObject_lookup_in (_toRowArray this obj) k Hk Hproto)
      as (i & key & Hi & Hkey & ->).
    by rewrite (index_toRowArray obj i key Hi), Hkey.
  - destruct (_toObject this (_toRowArray this obj) !! k) eqn:Hv; [|done].
    exfalso. apply Hk. apply (toObject_is_Some (_toRowArray this obj)). by eexists.
Qed.

(** An object whose keys are exactly the header fields, [__proto__] apart,
    and whose values are cell values is read back as itself. *)
Lemma toObject_toRowArray_id (obj : Record_) :
  (forall k, is_Some (obj !! k) <-> k ∈ fieldNames this /\ k <> "__proto__") ->
  (forall k v, obj !! k = Some v -> exists c, v = VCell c) ->
  _toObject this (_toRowArray this obj) = obj.
Proof.
  intros Hdom Hcells. apply map_eq. intros k.
  rewrite toObject_toRowArray_lookup. case_decide as Hk.
  - apply Hdom in Hk as [v Hv]. unfold getProp. rewrite Hv.
    destruct (Hcells k v Hv) as [c ->]. done.
  - destruct (obj !! k) eqn:Hv; [|done].
    exfalso. apply Hk, Hdom. by eexists.
Qed.

(** A name that is not inherited is read from the own properties alone. *)
Lemma getProp_plain (obj : Record_) (k : string) :
  isInherited k = false ->
  getProp obj k = match obj !! k with Some v => v | None => VUndefined end.
Proof. intros Hk. unfold getProp. by rewrite Hk. Qed.

Lemma plainFields_protoFree : plainFields this -> protoFree this.
Proof. intros Hplain Hin. specialize (Hplain _ Hin). vm_compute in Hplain. discriminate. Qed.

End Records.

(** ** The lookup by identifier *)

Section Lookup.

Lemma idAt_readRow (s : Sheet) (r : nat) :
  ToString (index (readRow s r 1 1) 0) = idAt s r.
Proof. unfold readRow, idAt. simpl. done. Qed.

Lemma scanFrom_rows (s : Sheet) (sid : string) (m i : nat) :
  match scanFrom (map (fun r => readRow s r 1 1) (seq (i + 1) m)) i sid with
  | Some r =>
      i + 1 <= r < i + 1 + m /\ idAt s r = sid /\
      forall r', i + 1 <= r' < r -> idAt s r' <> sid
  | None => forall r', i + 1 <= r' < i + 1 + m -> idAt s r' <> sid
  end.
Proof.
  revert i. induction m as [|m IH]; intros i.
  - simpl. intros r' Hr'. lia.
  - cbn [seq map scanFrom]. rewrite idAt_readRow.
    destruct (String.eqb (idAt s (i + 1)) sid) eqn:Heq.
    + apply String.eqb_eq in Heq. split; [lia |]. split; [done |].
      intros r' Hr'. lia.
    + apply String.eqb_neq in Heq.
      specialize (IH (S i)). replace (S i + 1) with (S (i + 1)) in IH by lia.
      destruct (scanFrom _ (S i) sid) as [r|].
      * destruct IH as (Hr & Hid & Hmin). split; [lia |]. split; [done |].
        intros r' Hr'. destruct (decide (r' = i + 1)) as [->|Hne]; [done |].
        apply Hmin. lia.
      * intros r' Hr'. destruct (decide (r' = i + 1)) as [->|Hne]; [done |].
        apply IH. lia.
Qed.

Lemma idColumn_tail (s : Sheet) (n : nat) :
  drop 1 (readRange s 1 1 (S n) 1) = map (fun r => readRow s r 1 1) (seq 2 n).
Proof.
  unfold readRange. cbn [seq map drop]. rewrite <- (seq_shift n 1), map_map.
  apply map_ext. intros i. done.
Qed.

(** [_getRowIndexById] returns the first data row whose identifier has the
    string form of the requested one, and [null] when there is none. *)
Lemma rowIndexOf_spec (s : Sheet) (id : value) :
  match rowIndexOf s id with
  | Some r => firstMatch s id r
  | None => noMatch s id
  end.
Proof.
  unfold rowIndexOf. destruct (lastRowOf s <=? 1) eqn:Hlast.
  - apply Nat.leb_le in Hlast. intros r [Hr1 Hr2]. lia.
  - apply Nat.leb_gt in Hlast.
    destruct (lastRowOf s) as [|n] eqn:Hn; [lia |].
    rewrite idColumn_tail.
    pose proof (scanFrom_rows s (ToString id) n 1) as Hscan. simpl in Hscan.
    destruct (scanFrom _ 1 (ToString id)) as [r|].
    + destruct Hscan as (Hr & Hid & Hmin).
      unfold firstMatch, matchesAt, isDataRow. rewrite Hn.
      repeat split; try done; try lia.
    + intros r [Hr1 Hr2]. apply Hscan. lia.
Qed.

Lemma firstMatch_unique (s : Sheet) (id : value) (r1 r2 : nat) :
  firstMatch s id r1 -> firstMatch s id r2 -> r1 = r2.
Proof.
  intros [[[Ha1 Ha2] Ha3] Ha4] [[[Hb1 Hb2] Hb3] Hb4].
  destruct (Nat.lt_trichotomy r1 r2) as [Hlt|[Heq|Hgt]]; [|done|].
  - exfalso. apply (Hb4 r1); [lia | done].
  - exfalso. apply (Ha4 r2); [lia | done].
Qed.

Lemma rowIndexOf_firstMatch (s : Sheet) (id : value) (r : nat) :
  firstMatch s id r -> rowIndexOf s id = Some r.
Proof.
  intros Hfirst. pose proof (rowIndexOf_spec s id) as Hspec.
  destruct (rowIndexOf s id) as [r'|].
  - f_equal. by apply (firstMatch_unique s id).
  - exfalso. destruct Hfirst as [[Hrow Hid] _]. by apply (Hspec r).
Qed.

Lemma rowIndexOf_noMatch (s : Sheet) (id : value) :
  noMatch s id -> rowIndexOf s id = None.
Proof.
  intros Hno. pose proof (rowIndexOf_spec s id) as Hspec.
  destruct (rowIndexOf s id) as [r|]; [|done].
  exfalso. destruct Hspec as [[Hrow Hid] _]. by apply (Hno r).
Qed.

Lemma rowIndexOf_firstMatch_iff (s : Sheet) (id : value) (r : nat) :
  firstMatch s id r <-> rowIndexOf s id = Some r.
Proof.
  split; [apply rowIndexOf_firstMatch |].
  intros Hsome. pose proof (rowIndexOf_spec s id) as Hspec. by rewrite Hsome in Hspec.
Qed.

Lemma rowIndexOf_noMatch_iff (s : Sheet) (id : value) :
  noMatch s id <-> rowIndexOf s id = None.
Proof.
  split; [apply rowIndexOf_noMatch |].
  intros Hnone. pose proof (rowIndexOf_spec s id) as Hspec. by rewrite Hnone in Hspec.
Qed.

(** The result only depends on the string form of the identifier. *)
Lemma rowIndexOf_ToString (s : Sheet) (id1 id2 : value) :
  ToString id1 = ToString id2 -> rowIndexOf s id1 = rowIndexOf s id2.
Proof. intros Heq. unfold rowIndexOf. by rewrite Heq. Qed.

End Lookup.

(** ** Running the methods *)

Section Runs.

Variable this : SheetDAO.

Lemma logEvents_logEvents (evs1 evs2 : list Event) (w : World) :
  logEvents evs2 (logEvents evs1 w) = logEvents (evs1 ++ evs2) w.
Proof. unfold logEvents. simpl. by rewrite app_assoc. Qed.

Lemma getRowIndexById_run (id : value) (w : World) :
  _getRowIndexById this id w
  = (Return (rowIndexOf (sheet w) id), logEvents (lookupEvents (sheet w)) w).
Proof.
  unfold _getRowIndexById, rowIndexOf, lookupEvents, bindM, getLastRow.
  destruct (lastRowOf (sheet w) <=? 1) eqn:Hlast; [done |].
  apply Nat.leb_gt in Hlast. unfold getValues, validRange.
  destruct (lastRowOf (sheet w)) as [|n]; [lia |]. simpl.
  unfold ret, logEvents, logEvent. simpl. by rewrite <- app_assoc.
Qed.

Lemma getObjectByRowIndex_run (row : nat) (w : World) :
  1 <= row -> lastCol this <> 0 ->
  _getObjectByRowIndex this row w
  = (Return (recordAt this (sheet w) row),
     logEvents [EvGetValues row 1 1 (lastCol this)] w).
Proof.
  intros Hrow Hcol.
  unfold _getObjectByRowIndex, recordAt, bindM, getValues, validRange.
  destruct row as [|row]; [lia |]. destruct (lastCol this) as [|lc]; [done |].
  simpl. unfold ret, readRange. simpl. by rewrite Nat.add_0_r.
Qed.

Lemma find_run_none (id : value) (w : World) :
  rowIndexOf (sheet w) id = None ->
  find this id w = (Return None, logEvents (lookupEvents (sheet w)) w).
Proof.
  intros Hnone. unfold find, bindM. by rewrite getRowIndexById_run, Hnone.
Qed.

Lemma find_run (id : value) (w : World) :
  lastCol this <> 0 ->
  find this id w
  = match rowIndexOf (sheet w) id with
    | Some r =>
        (Return (Some (recordAt this (sheet w) r)),
         logEvents (lookupEvents (sheet w) ++ [EvGetValues r 1 1 (lastCol this)]) w)
    | None => (Return None, logEvents (lookupEvents (sheet w)) w)
    end.
Proof.
  intros Hcol. unfold find, bindM. rewrite getRowIndexById_run.
  pose proof (rowIndexOf_spec (sheet w) id) as Hspec.
  destruct (rowIndexOf (sheet w) id) as [[|r]|]; [| |done].
  - destruct Hspec as [[[Hr _] _] _]. lia.
  - rewrite getObjectByRowIndex_run by (done || lia).
    by rewrite logEvents_logEvents.
Qed.

End Runs.

(** Both sides are worlds built from [w]: unfold the updates and compare. *)
Ltac world_eq :=
  unfold ret, finish, setLockHeld, setSheet, logEvents, logEvent;
  cbn [tabName sheet lockHeld lockBusy trace app];
  rewrite <- ?app_assoc; cbn [app]; try done.

Section LockedRuns.

Context {numeric : NumericStrings}.
Variable this : SheetDAO.

Lemma add_run (data : Record_) (w : World) :
  lockBusy w = false ->
  add this data w
  = (Return (newRecordOf this (sheet w) data),
     finish (appendRowTo (sheet w) (_toRowArray this (newRecordOf this (sheet w) data)))
       (addEvents (sheet w)) w).
Proof.
  intros Hfree.
  unfold add, tryFinally, bindM, waitLock, getLastRow, newRecordOf, nextId,
    addEvents, idField.
  rewrite Hfree. cbn [sheet setLockHeld logEvent].
  destruct (lastRowOf (sheet w) <=? 1) eqn:Hlast.
  - unfold appendRow, releaseLock. world_eq.
  - apply Nat.leb_gt in Hlast. unfold getValue, validRange.
    destruct (lastRowOf (sheet w)) as [|n]; [lia |].
    cbn [Nat.leb andb]. unfold appendRow, releaseLock. world_eq.
Qed.

Lemma add_timeout (data : Record_) (w : World) :
  lockBusy w = true ->
  add this data w
  = (Throw LockTimeout,
     mkWorld (tabName w) (sheet w) false true
       (trace w ++ [EvWaitLock 30000; EvReleaseLock])).
Proof.
  intros Hbusy. unfold add, tryFinally, bindM, waitLock. rewrite Hbusy.
  unfold releaseLock. world_eq. by rewrite Hbusy.
Qed.

Lemma update_timeout (id : value) (data : Record_) (w : World) :
  lockBusy w = true ->
  update this id data w
  = (Throw LockTimeout,
     mkWorld (tabName w) (sheet w) false true
       (trace w ++ [EvWaitLock 30000; EvReleaseLock])).
Proof.
  intros Hbusy. unfold update, tryFinally, bindM, waitLock. rewrite Hbusy.
  unfold releaseLock. world_eq. by rewrite Hbusy.
Qed.

Lemma update_run_none (id : value) (data : Record_) (w : World) :
  lockBusy w = false -> rowIndexOf (sheet w) id = None ->
  update this id data w
  = (Return false,
     finish (sheet w) ([EvWaitLock 30000] ++ lookupEvents (sheet w) ++ [EvReleaseLock]) w).
Proof.
  intros Hfree Hnone. unfold update, tryFinally, bindM at 1, waitLock.
  rewrite Hfree. unfold bindM. rewrite getRowIndexById_run.
  cbn [sheet setLockHeld logEvent logEvents]. rewrite Hnone.
  unfold releaseLock. world_eq.
Qed.

Lemma update_run_some (id : value) (data : Record_) (w : World) (r : nat) :
  lockBusy w = false -> wfDAO this -> rowIndexOf (sheet w) id = Some r ->
  update this id data w
  = (Return true,
     finish
       (writeRow (sheet w) r 1
          (_toRowArray this (spread (recordAt this (sheet w) r) data)))
       ([EvWaitLock 30000] ++ lookupEvents (sheet w)
        ++ [EvGetValues r 1 1 (lastCol this); EvSetValues r 1 1 (lastCol this);
            EvReleaseLock]) w).
Proof.
  intros Hfree [Hcol Hlen] Hsome.
  pose proof (rowIndexOf_spec (sheet w) id) as Hspec. rewrite Hsome in Hspec.
  destruct Hspec as [[[Hr _] _] _]. destruct r as [|r]; [lia |].
  unfold update, tryFinally, bindM at 1, waitLock.
  rewrite Hfree. unfold bindM at 1. rewrite getRowIndexById_run.
  cbn [sheet setLockHeld logEvent logEvents]. rewrite Hsome.
  unfold bindM at 1. rewrite getObjectByRowIndex_run by (done || lia).
  cbn [sheet setLockHeld logEvent logEvents].
  unfold bindM, setValues, validRange, fitsRange.
  cbn [sheet setLockHeld logEvent logEvents length forallb].
  rewrite length_toRowArray, Hlen.
  destruct (lastCol this) as [|lc] eqn:Hlc; [done |].
  cbn [andb Nat.leb writeRange]. unfold releaseLock. world_eq.
  rewrite !Nat.eqb_refl. cbn [andb]. world_eq.
  by rewrite <- app_assoc.
Qed.

Lemma remove_run (id : value) (w : World) :
  remove this id w
  = match rowIndexOf (sheet w) id with
    | Some r =>
        (Return true,
         setSheet (deleteRowOf (sheet w) r)
           (logEvents (lookupEvents (sheet w) ++ [EvDeleteRow r]) w))
    | None => (Return false, logEvents (lookupEvents (sheet w)) w)
    end.
Proof.
  unfold remove, bindM. rewrite getRowIndexById_run.
  pose proof (rowIndexOf_spec (sheet w) id) as Hspec.
  destruct (rowIndexOf (sheet w) id) as [[|r]|]; [| |done].
  - destruct Hspec as [[[Hr _] _] _]. lia.
  - unfold deleteRow. cbn [Nat.leb]. world_eq.
Qed.

End LockedRuns.

(** ** The constructor *)

(** An instance that the constructor returns has a header as wide as the
    column count it recorded, and that count is not 0. *)
Lemma constructor_wf (sheetName : string) (w w' : World) (this : SheetDAO) :
  constructor sheetName w = (Return this, w') -> wfDAO this.
Proof.
  unfold constructor, bindM, getSheetByName, getLastColumn, getValues, validRange.
  destruct (String.eqb sheetName (tabName w)); [|discriminate].
  cbn [negb sheet logEvent].
  destruct (lastColumnOf (sheet w)) as [|lc] eqn:Hlc; [discriminate |].
  cbn [Nat.eqb Nat.leb andb]. unfold ret, readRange. cbn [seq map nth].
  intros Heq. injection Heq as <- _. split; [done |].
  cbn [headers lastCol]. apply length_readRow.
Qed.

(** ** find *)

Section Find.

Variable this : SheetDAO.

(** C8. [find(id)] goes down the identifier column and returns the record of
    the first data row whose identifier, as a string, is the string form of
    [id]; it returns [null] when no data row matches.  One of the two cases
    always applies, the tab is left as it was, and two identifiers with the
    same string form, such as [5] and ["5"], get the same answer. *)
Theorem find_first_match (id : value) (w : World) :
  lastCol this <> 0 ->
  (forall r, firstMatch (sheet w) id r ->
     fst (find this id w) = Return (Some (recordAt this (sheet w) r)))
  /\ (noMatch (sheet w) id -> fst (find this id w) = Return None)
  /\ ((exists r, firstMatch (sheet w) id r) \/ noMatch (sheet w) id)
  /\ sheet (snd (find this id w)) = sheet w
  /\ (forall id', ToString id' = ToString id -> find this id' w = find this id w)
  /\ find this (VCell (CNum 5)) w = find this (VCell (CStr "5")) w.
Proof.
  intros Hcol. split_and!.
  - intros r Hfirst. rewrite find_run by done.
    by rewrite (rowIndexOf_firstMatch _ _ _ Hfirst).
  - intros Hno. rewrite find_run_none; [done |]. by apply rowIndexOf_noMatch.
  - pose proof (rowIndexOf_spec (sheet w) id) as Hspec.
    destruct (rowIndexOf (sheet w) id) as [r|]; [left; by exists r | by right].
  - rewrite find_run by done. by destruct (rowIndexOf (sheet w) id).
  - intros id' Heq. rewrite !find_run by done.
    by rewrite (rowIndexOf_ToString _ id' id Heq).
  - rewrite !find_run by done.
    by rewrite (rowIndexOf_ToString _ (VCell (CNum 5)) (VCell (CStr "5"))).
Qed.

End Find.

(** On the tab Ann(1), Cy("5"), Dee(5), looking up the number 5 gives Cy, the
    first row whose identifier reads "5". *)
Lemma find_first_match_witness :
  fst (find people (num 5) (peopleTab [ann; cy; dee]))
  = Return (Some (object [("id", str "5"); ("name", str "Cy"); ("age", num 7)])).
Proof.
  assert (lastCol people <> 0) as Hcol by (simpl; lia).
  destruct (find_first_match people (num 5) (peopleTab [ann; cy; dee]) Hcol)
    as (Hfound & _).
  rewrite (Hfound 3).
  - vm_compute. reflexivity.
  - apply rowIndexOf_firstMatch_iff. vm_compute. reflexivity.
Defined.

(** ** update *)

Section Update.

Variable this : SheetDAO.

Lemma idAt_rowAt (s s' : Sheet) (r r' : nat) :
  rowAt s r = rowAt s' r' -> idAt s r = idAt s' r'.
Proof. intros Heq. unfold idAt, cellAt. by rewrite Heq. Qed.

Lemma lookupEvents_no_write (s : Sheet) :
  forallb (fun ev => negb (writesSheet ev)) (lookupEvents s) = true.
Proof. unfold lookupEvents. by destruct (lastRowOf s <=? 1). Qed.

(** What [update] does to a row it finds: the merged record is written over
    the first [lastCol] cells of that row. *)
Lemma update_found (id : value) (data : Record_) (w : World) (r : nat) :
  wfDAO this -> lockBusy w = false -> firstMatch (sheet w) id r ->
  let rowValue := _toRowArray this (spread (recordAt this (sheet w) r) data) in
  fst (update this id data w) = Return true
  /\ sheet (snd (update this id data w))
     = <[r - 1 := rowValue ++ drop (lastCol this) (rowAt (sheet w) r)]> (sheet w)
  /\ rowAt (sheet (snd (update this id data w))) r
     = rowValue ++ drop (lastCol this) (rowAt (sheet w) r)
  /\ recordAt this (sheet (snd (update this id data w))) r = _toObject this rowValue.
Proof.
  intros Hwf Hfree Hfirst rowValue.
  pose proof Hfirst as [[[Hr1 Hr2] _] _].
  pose proof (lastRowOf_le_length (sheet w)) as Hlen.
  rewrite (update_run_some this id data w r Hfree Hwf)
    by (by apply rowIndexOf_firstMatch).
  cbn [fst snd finish sheet]. fold rowValue.
  assert (length rowValue = lastCol this) as Hrow.
  { unfold rowValue. rewrite length_toRowArray. by destruct Hwf. }
  rewrite writeRow_inside by lia. rewrite Hrow.
  split_and!; [done | done | by rewrite rowAt_insert_same by lia |].
  pose proof (readRow_prefix
    (<[r - 1 := rowValue ++ drop (lastCol this) (rowAt (sheet w) r)]> (sheet w))
    r rowValue (drop (lastCol this) (rowAt (sheet w) r))) as Hread.
  rewrite Hrow in Hread. unfold recordAt.
  by rewrite Hread by (by rewrite rowAt_insert_same by lia).
Qed.

(** C5, as the code has it.  [update(id, {f: v})] works on the first data
    row whose identifier matches [id].  With the lock obtained, for a header
    field [f] of a header without a column named [__proto__], it returns
    [true]; read back, the record at that row is the old one with [f] set to
    [v], the empty string standing for [null] and [undefined], so every
    other field keeps its value; the merged row is written at the row where
    the record was, and no other row changes, a later row with the same
    identifier included. *)
Theorem update_sets_field (id : value) (f : string) (v : value) (w : World) (r : nat) :
  wfDAO this -> protoFree this -> lockBusy w = false ->
  firstMatch (sheet w) id r -> f ∈ fieldNames this ->
  let old := recordAt this (sheet w) r in
  let w' := snd (update this id {[f := v]} w) in
  fst (update this id {[f := v]} w) = Return true
  /\ recordAt this (sheet w') r = <[f := VCell (orEmpty v)]> old
  /\ recordAt this (sheet w') r !! f = Some (VCell (orEmpty v))
  /\ (forall g, g <> f -> recordAt this (sheet w') r !! g = old !! g)
  /\ sheet w'
     = <[r - 1 := _toRowArray this (<[f := v]> old)
                  ++ drop (lastCol this) (rowAt (sheet w) r)]> (sheet w)
  /\ (forall r', 1 <= r' -> r' <> r -> rowAt (sheet w') r' = rowAt (sheet w) r').
Proof.
  intros Hwf Hproto Hfree Hfirst Hf old w'.
  destruct (update_found id {[f := v]} w r Hwf Hfree Hfirst)
    as (Hres & Hsheet & _ & Hrec).
  fold w' in Hsheet, Hrec. fold old in Hsheet, Hrec.
  assert (spread old {[f := v]} = <[f := v]> old) as Hmerge
    by (unfold spread; by rewrite insert_union_singleton_l).
  rewrite Hmerge in Hsheet, Hrec.
  assert (f <> "__proto__") as Hfp by (by intros ->).
  assert (forall k, is_Some (old !! k) <-> k ∈ fieldNames this /\ k <> "__proto__")
    as Hdom by (intros k; apply toObject_is_Some).
  assert (forall k x, old !! k = Some x -> exists c, x = VCell c) as Hcells.
  { intros k x Hk. apply (toObject_cells this _ k x) in Hk; [done |].
    rewrite length_readRow. destruct Hwf as [_ ->]. done. }
  assert (recordAt this (sheet w') r = <[f := VCell (orEmpty v)]> old) as Hnew.
  { rewrite Hrec. apply map_eq. intros k. rewrite toObject_toRowArray_lookup.
    destruct (decide (k = f)) as [->|Hne].
    - rewrite decide_True by done. rewrite lookup_insert_eq.
      unfold getProp. by rewrite lookup_insert_eq.
    - rewrite lookup_insert_ne by done. unfold getProp.
      rewrite lookup_insert_ne by done. case_decide as Hk.
      + apply Hdom in Hk as [x Hx]. rewrite Hx.
        by destruct (Hcells k x Hx) as [c ->].
      + destruct (old !! k) eqn:Hx; [|done].
        exfalso. apply Hk, Hdom. by eexists. }
  pose proof Hfirst as [[[Hr1 _] _] _].
  split_and!; try done.
  - rewrite Hnew. apply lookup_insert_eq.
  - intros g Hg. rewrite Hnew. by apply lookup_insert_ne.
  - intros r' Hr' Hne. rewrite Hsheet. apply rowAt_insert_other; lia.
Qed.

(** C6. [update] with an identifier that no data row carries returns [false];
    the tab is left as it was and the call makes no write to it. *)
Theorem update_not_found (id : value) (data : Record_) (w : World) :
  lockBusy w = false -> noMatch (sheet w) id ->
  fst (update this id data w) = Return false
  /\ sheet (snd (update this id data w)) = sheet w
  /\ exists evs,
       trace (snd (update this id data w)) = trace w ++ evs
       /\ forallb (fun ev => negb (writesSheet ev)) evs = true.
Proof.
  intros Hfree Hno.
  rewrite (update_run_none this id data w Hfree) by (by apply rowIndexOf_noMatch).
  split_and!; [done | done |].
  eexists. split; [done |].
  cbn [app forallb writesSheet negb andb].
  by rewrite forallb_app, lookupEvents_no_write.
Qed.

Lemma idField_head (h : cell) (rest : Row) :
  headers this = h :: rest -> idField this = keyOf h.
Proof. intros Hh. unfold idField. by rewrite Hh. Qed.

Lemma headers_nonempty :
  wfDAO this -> exists h rest, headers this = h :: rest.
Proof.
  intros [Hcol Hlen]. destruct (headers this) as [|h rest]; [simpl in Hlen; lia |].
  by exists h, rest.
Qed.

(** C10, as the code has it.  When the input of [update] has the identifier
    field as a key, the value under it is written into the identifier column
    of the row found, the empty string standing for [null] and [undefined]:
    the merge does not protect the identifier.  The record read back has it
    under the identifier field, unless that field is named [__proto__].  If
    another row already carries what was written, two rows carry it
    afterwards. *)
Theorem update_overwrites_id (id : value) (data : Record_) (v : value)
    (w : World) (r : nat) :
  wfDAO this -> lockBusy w = false -> firstMatch (sheet w) id r ->
  data !! idField this = Some v ->
  let w' := snd (update this id data w) in
  fst (update this id data w) = Return true
  /\ cellAt (sheet w') r 1 = orEmpty v
  /\ (idField this <> "__proto__" ->
      recordAt this (sheet w') r !! idField this = Some (VCell (orEmpty v)))
  /\ (forall r2, 1 <= r2 -> r2 <> r -> cellAt (sheet w) r2 1 = orEmpty v ->
        cellAt (sheet w') r2 1 = cellAt (sheet w') r 1).
Proof.
  intros Hwf Hfree Hfirst Hdata w'.
  destruct (update_found id data w r Hwf Hfree Hfirst)
    as (Hres & Hsheet & Hrow & Hrec).
  fold w' in Hsheet, Hrow, Hrec.
  destruct (headers_nonempty Hwf) as (h & rest & Hh).
  pose proof (idField_head h rest Hh) as Hid.
  assert (getProp (spread (recordAt this (sheet w) r) data) (keyOf h) = v) as Hprop.
  { unfold getProp, spread. rewrite <- Hid.
    by rewrite (lookup_union_Some_l _ _ _ _ Hdata). }
  assert (cellAt (sheet w') r 1 = orEmpty v) as Hcell.
  { unfold cellAt. rewrite Hrow. unfold _toRowArray. rewrite Hh.
    cbn [map app nth Nat.sub]. fold (keyOf h). by rewrite Hprop. }
  pose proof Hfirst as [[[Hr1 _] _] _].
  split_and!; try done.
  - intros Hproto. rewrite Hrec, toObject_toRowArray_lookup.
    rewrite decide_True.
    + rewrite Hid. by rewrite Hprop.
    + split; [|done]. unfold fieldNames. rewrite Hh, Hid. by left.
  - intros r2 Hr2 Hne Hc. rewrite Hcell. unfold cellAt. rewrite Hsheet.
    rewrite rowAt_insert_other by lia. done.
Qed.

End Update.

Lemma people_wf : wfDAO people.
Proof. split; [simpl; lia | reflexivity]. Qed.

Lemma people_protoFree : protoFree people.
Proof. unfold protoFree. apply (bool_decide_unpack _). vm_compute. exact I. Qed.

Lemma people_plain : plainFields people.
Proof.
  intros k Hk. apply list_elem_of_In in Hk. simpl in Hk.
  destruct Hk as [<-|[<-|[<-|[]]]]; reflexivity.
Qed.

(** update(1, {age: 31}) on the tab Ann(1), Bo(2). *)
Lemma update_sets_field_witness :
  fst (update people (num 1) {[ "age" := num 31 ]} (peopleTab [ann; bo])) = Return true
  /\ recordAt people
       (sheet (snd (update people (num 1) {[ "age" := num 31 ]} (peopleTab [ann; bo])))) 2
     = object [("id", num 1); ("name", str "Ann"); ("age", num 31)].
Proof.
  assert (firstMatch (sheet (peopleTab [ann; bo])) (num 1) 2) as Hfirst
    by (apply rowIndexOf_firstMatch_iff; vm_compute; reflexivity).
  assert ("age" ∈ fieldNames people) as Hfield
    by (apply list_elem_of_In; simpl; tauto).
  destruct (update_sets_field people (num 1) "age" (num 31) (peopleTab [ann; bo]) 2
              people_wf people_protoFree eq_refl Hfirst Hfield) as (Hres & Hrec & _).
  split; [exact Hres |].
  etrans; [exact Hrec |]. vm_compute. reflexivity.
Defined.

(** The claim as stated fails where two records carry the identifier, a
    state the class reaches by itself: on Ann(1), Bo(2), update(2, {id: 1})
    leaves Ann(1), Bo(1).  There update(1, {age: 31}) returns [true] and
    changes the row of Ann only: the record of row 3, which has identifier 1
    as well, keeps its empty age. *)
Lemma update_skips_later_match :
  let w := snd (update people (num 2) (object [("id", num 1)]) (peopleTab [ann; bo])) in
  let w' := snd (update people (num 1) (object [("age", num 31)]) w) in
  sheet w = [peopleHeader; ann; [CNum 1; CStr "Bo"; CStr ""]]
  /\ idAt (sheet w) 3 = ToString (num 1)
  /\ fst (update people (num 1) (object [("age", num 31)]) w) = Return true
  /\ sheet w' = [peopleHeader; [CNum 1; CStr "Ann"; CNum 31]; [CNum 1; CStr "Bo"; CStr ""]]
  /\ recordAt people (sheet w') 3 !! "age" = Some (str "")
  /\ recordAt people (sheet w') 3 !! "age" <> Some (num 31).
Proof.
  intros w w'. split_and!; try (vm_compute; reflexivity).
  vm_compute. discriminate.
Qed.

(** update(7, {age: 31}) on the same tab: there is no record 7. *)
Lemma update_not_found_witness :
  fst (update people (num 7) {[ "age" := num 31 ]} (peopleTab [ann; bo])) = Return false
  /\ sheet (snd (update people (num 7) {[ "age" := num 31 ]} (peopleTab [ann; bo])))
     = [peopleHeader; ann; bo].
Proof.
  assert (noMatch (sheet (peopleTab [ann; bo])) (num 7)) as Hno
    by (apply rowIndexOf_noMatch_iff; vm_compute; reflexivity).
  destruct (update_not_found people (num 7) {[ "age" := num 31 ]} (peopleTab [ann; bo])
              eq_refl Hno) as (Hres & Hsheet & _).
  split; [exact Hres | exact Hsheet].
Defined.

(** update(2, {id: 1}) on the tab Ann(1), Bo(2): afterwards both rows carry
    the identifier 1. *)
Lemma update_overwrites_id_witness :
  let w' := snd (update people (num 2) {[ "id" := num 1 ]} (peopleTab [ann; bo])) in
  cellAt (sheet w') 3 1 = CNum 1 /\ cellAt (sheet w') 2 1 = cellAt (sheet w') 3 1.
Proof.
  assert (firstMatch (sheet (peopleTab [ann; bo])) (num 2) 3) as Hfirst
    by (apply rowIndexOf_firstMatch_iff; vm_compute; reflexivity).
  assert (({[ "id" := num 1 ]} : Record_) !! idField people = Some (num 1))
    as Hdata by (vm_compute; reflexivity).
  destruct (update_overwrites_id people (num 2) {[ "id" := num 1 ]} (num 1)
              (peopleTab [ann; bo]) 3 people_wf eq_refl Hfirst Hdata)
    as (_ & Hcell & _ & Hdup).
  split; [exact Hcell |].
  apply Hdup; [lia | lia | reflexivity].
Defined.

(** The claim as stated fails for a nullish value: update(2, {id: null}) on
    Ann(1), Bo(2) returns [true] and leaves the empty string, not [null], in
    the identifier column of the row of Bo. *)
Lemma update_null_id_writes_empty :
  let data := object [("id", VNull)] in
  let w' := snd (update people (num 2) data (peopleTab [ann; bo])) in
  data !! idField people = Some VNull
  /\ fst (update people (num 2) data (peopleTab [ann; bo])) = Return true
  /\ cellAt (sheet w') 3 1 = CStr ""
  /\ VCell (cellAt (sheet w') 3 1) <> VNull.
Proof.
  intros data w'. split_and!; try (vm_compute; reflexivity).
  vm_compute. discriminate.
Qed.

(** ** remove *)

Section Remove.

Variable this : SheetDAO.

(** C7, as the code has it.  [remove(id)] on an identifier that a data row
    carries returns [true] and deletes the first such row: the rows above
    stay, the rows below move up by one, each with its cells.  When that row
    was the only one carrying the identifier, a [find(id)] right after returns
    [null].  On an identifier that no data row carries, [remove] returns
    [false] and leaves the tab as it was. *)
Theorem remove_row (id : value) (w : World) :
  (forall r, firstMatch (sheet w) id r ->
     let w' := snd (remove this id w) in
     fst (remove this id w) = Return true
     /\ sheet w' = deleteRowOf (sheet w) r
     /\ length (sheet w') = length (sheet w) - 1
     /\ (forall r', 1 <= r' < r -> rowAt (sheet w') r' = rowAt (sheet w) r')
     /\ (forall r', r <= r' -> rowAt (sheet w') r' = rowAt (sheet w) (S r'))
     /\ ((forall r', matchesAt (sheet w) id r' -> r' = r) ->
           fst (find this id w') = Return None))
  /\ (noMatch (sheet w) id ->
      fst (remove this id w) = Return false
      /\ sheet (snd (remove this id w)) = sheet w).
Proof.
  split.
  - intros r Hfirst w'. unfold w'. rewrite remove_run.
    rewrite (rowIndexOf_firstMatch _ _ _ Hfirst).
    cbn [fst snd setSheet sheet].
    pose proof Hfirst as [[[Hr1 Hr2] _] _].
    pose proof (lastRowOf_le_length (sheet w)) as Hlen.
    split_and!; [done | done | | | |].
    + unfold deleteRowOf. rewrite length_app, length_take, length_drop. lia.
    + intros r' Hr'. apply rowAt_delete_before. lia.
    + intros r' Hr'. apply rowAt_delete_after. lia.
    + intros Honly. rewrite find_run_none; [done |].
      apply rowIndexOf_noMatch. unfold setSheet. cbn [sheet].
      intros r' [Hd1 Hd2] Hid.
      pose proof (lastRowOf_delete (sheet w) r ltac:(lia)) as Hless.
      destruct (decide (r' < r)) as [Hlt|Hge].
      * rewrite (idAt_rowAt _ (sheet w) r' r') in Hid
          by (apply rowAt_delete_before; lia).
        assert (r' = r) by (apply Honly; repeat split; [lia | lia | done]). lia.
      * rewrite (idAt_rowAt _ (sheet w) r' (S r')) in Hid
          by (apply rowAt_delete_after; lia).
        assert (S r' = r) by (apply Honly; repeat split; [lia | lia | done]). lia.
  - intros Hno. rewrite remove_run. by rewrite (rowIndexOf_noMatch _ _ Hno).
Qed.

End Remove.

(** remove(2) on the tab Ann(1), Bo(2), Dee(5); remove(9) on the same tab. *)
Lemma remove_row_witness :
  let w := peopleTab [ann; bo; dee] in
  sheet (snd (remove people (num 2) w)) = [peopleHeader; ann; dee]
  /\ fst (find people (num 2) (snd (remove people (num 2) w))) = Return None
  /\ fst (remove people (num 9) w) = Return false.
Proof.
  intros w.
  assert (firstMatch (sheet w) (num 2) 3) as Hfirst
    by (apply rowIndexOf_firstMatch_iff; vm_compute; reflexivity).
  assert (noMatch (sheet w) (num 9)) as Hno
    by (apply rowIndexOf_noMatch_iff; vm_compute; reflexivity).
  destruct (remove_row people (num 2) w) as [Hfound _].
  destruct (remove_row people (num 9) w) as [_ Hmissing].
  destruct (Hfound 3 Hfirst) as (_ & Hsheet & _ & _ & _ & Hgone).
  destruct (Hmissing Hno) as [Hfalse _].
  split; [exact Hsheet |]. split; [|exact Hfalse].
  apply Hgone. intros r' [[Hr1 Hr2] Hid].
  change (lastRowOf (sheet w)) with 4 in Hr2.
  assert (r' = 2 \/ r' = 3 \/ r' = 4) as [-> | [-> | ->]] by lia;
    [vm_compute in Hid; discriminate | reflexivity | vm_compute in Hid; discriminate].
Defined.

(** The claim as stated fails on a tab where two rows carry the identifier,
    a state the class reaches by itself: on Ann(1), Bo(2), update(2, {id: 1})
    leaves two rows with identifier 1; remove(1) then returns [true] and
    deletes Ann, and the find(1) that follows returns the row of Bo, not
    [null]. *)
Lemma remove_then_find_duplicate :
  let w := snd (update people (num 2) (object [("id", num 1)]) (peopleTab [ann; bo])) in
  sheet w = [peopleHeader; ann; [CNum 1; CStr "Bo"; CStr ""]]
  /\ firstMatch (sheet w) (num 1) 2
  /\ fst (remove people (num 1) w) = Return true
  /\ sheet (snd (remove people (num 1) w))
     = [peopleHeader; [CNum 1; CStr "Bo"; CStr ""]]
  /\ fst (find people (num 1) (snd (remove people (num 1) w)))
     = Return (Some (object [("id", num 1); ("name", str "Bo"); ("age", str "")]))
  /\ fst (find people (num 1) (snd (remove people (num 1) w))) <> Return None.
Proof.
  intros w. split; [vm_compute; reflexivity |]. split.
  - apply rowIndexOf_firstMatch_iff. vm_compute. reflexivity.
  - split_and!; try (vm_compute; reflexivity).
    vm_compute. discriminate.
Qed.

(** ** The script lock *)

Section Lock.

Context {numeric : NumericStrings}.
Variable this : SheetDAO.

(** Whatever the body does, [finally] leaves the lock released, and the
    release is the last platform call. *)
Lemma tryFinally_release {A} (body : M A) (w : World) :
  lockHeld (snd (tryFinally body releaseLock w)) = false
  /\ last (trace (snd (tryFinally body releaseLock w))) = Some EvReleaseLock.
Proof.
  unfold tryFinally. destruct (body w) as [r w1]. unfold releaseLock.
  cbn [snd setLockHeld logEvent lockHeld trace]. split; [done |].
  apply last_snoc.
Qed.

(** C9. When the script lock cannot be taken within the 30000 ms of the
    wait, [add] and [update] throw the timeout; the only platform calls made
    are the wait and the release, so the tab is neither read nor written and
    stays as it was.  On every way out of [add] and [update] the lock is
    released, and the release is the last call made. *)
Theorem lock_discipline (id : value) (data : Record_) (w : World) :
  (lockBusy w = true ->
     (fst (add this data w) = Throw LockTimeout
      /\ sheet (snd (add this data w)) = sheet w
      /\ trace (snd (add this data w))
         = trace w ++ [EvWaitLock 30000; EvReleaseLock])
     /\ (fst (update this id data w) = Throw LockTimeout
         /\ sheet (snd (update this id data w)) = sheet w
         /\ trace (snd (update this id data w))
            = trace w ++ [EvWaitLock 30000; EvReleaseLock]))
  /\ (lockHeld (snd (add this data w)) = false
      /\ last (trace (snd (add this data w))) = Some EvReleaseLock)
  /\ (lockHeld (snd (update this id data w)) = false
      /\ last (trace (snd (update this id data w))) = Some EvReleaseLock).
Proof.
  split; [|split].
  - intros Hbusy. by rewrite add_timeout, update_timeout.
  - apply tryFinally_release.
  - apply tryFinally_release.
Qed.

End Lock.

(** add({name: "Eve"}) and update(1, {age: 31}) while the lock is kept by
    another execution. *)
Lemma lock_discipline_witness :
  let w := peopleTabBusy [ann] in
  fst (add (numeric := decimalStrings) people {[ "name" := str "Eve" ]} w) = Throw LockTimeout
  /\ sheet (snd (add (numeric := decimalStrings) people {[ "name" := str "Eve" ]} w))
     = [peopleHeader; ann]
  /\ fst (update people (num 1) {[ "name" := str "Eve" ]} w) = Throw LockTimeout.
Proof.
  intros w.
  destruct (lock_discipline (numeric := decimalStrings) people (num 1)
              {[ "name" := str "Eve" ]} w) as [Hbusy _].
  destruct (Hbusy eq_refl) as [(Hadd & Hsheet & _) (Hupd & _)].
  split; [exact Hadd |]. split; [exact Hsheet | exact Hupd].
Defined.

(** ** add *)

Section Add.

Context {numeric : NumericStrings}.
Variable this : SheetDAO.

(** The identifier computed on a tab without data rows, after a numeric
    cell, and after a cell that is not a number. *)
Lemma nextId_no_data (s : Sheet) : lastRowOf s <= 1 -> nextId s = 1%Z.
Proof.
  intros Hlast. unfold nextId.
  by rewrite (proj2 (Nat.leb_le _ _) Hlast).
Qed.

Lemma nextId_after_number (s : Sheet) (n : Z) :
  2 <= lastRowOf s -> cellAt s (lastRowOf s) 1 = CNum n -> nextId s = (n + 1)%Z.
Proof.
  intros Hlast Hcell. unfold nextId.
  rewrite (proj2 (Nat.leb_gt _ _)) by lia. rewrite Hcell. simpl.
  destruct (Z.eqb_spec n 0) as [->|]; done.
Qed.

Lemma nextId_after_NaN (s : Sheet) :
  2 <= lastRowOf s -> ToNumber (VCell (cellAt s (lastRowOf s) 1)) = None ->
  nextId s = 1%Z.
Proof.
  intros Hlast Hnan. unfold nextId.
  rewrite (proj2 (Nat.leb_gt _ _)) by lia. by rewrite Hnan.
Qed.

(** [{ [idKey]: newId, ...data }]: the properties of the input are copied
    over the identifier, so an identifier in the input replaces the computed
    one, and the input without one is extended by it. *)
Lemma newRecordOf_no_id (s : Sheet) (data : Record_) :
  data !! idField this = None ->
  newRecordOf this s data = <[idField this := VCell (CNum (nextId s))]> data.
Proof.
  intros Hnone. unfold newRecordOf, spread.
  by rewrite insert_union_singleton_r.
Qed.

Lemma newRecordOf_caller_id (s : Sheet) (data : Record_) (v : value) :
  data !! idField this = Some v -> newRecordOf this s data = data.
Proof.
  intros Hsome. unfold newRecordOf, spread. apply map_eq. intros k.
  rewrite lookup_union.
  destruct (decide (k = idField this)) as [->|Hne].
  - by rewrite Hsome, lookup_singleton_eq.
  - rewrite lookup_singleton_ne by done. by destruct (data !! k).
Qed.

(** X21. With the lock free, an input that has the identifier field comes
    back from [add] as it is, and it is the row of the input that is
    appended: the identifier of the caller is the one returned and written,
    not the computed one. *)
Lemma add_caller_id_kept (data : Record_) (v : value) (w : World) :
  lockBusy w = false -> data !! idField this = Some v ->
  fst (add this data w) = Return data
  /\ sheet (snd (add this data w)) = appendRowTo (sheet w) (_toRowArray this data).
Proof.
  intros Hfree Hsome. rewrite add_run by done.
  by rewrite (newRecordOf_caller_id _ _ v Hsome).
Qed.

(** Where the new row lands. *)
Lemma add_appends (data : Record_) (w : World) :
  wfDAO this -> lockBusy w = false -> data !! idField this = None ->
  let R := <[idField this := VCell (CNum (nextId (sheet w)))]> data in
  let w' := snd (add this data w) in
  fst (add this data w) = Return R
  /\ sheet w' = appendRowTo (sheet w) (_toRowArray this R)
  /\ lastRowOf (sheet w') = S (lastRowOf (sheet w))
  /\ rowAt (sheet w') (S (lastRowOf (sheet w))) = _toRowArray this R
  /\ cellAt (sheet w') (S (lastRowOf (sheet w))) 1 = CNum (nextId (sheet w))
  /\ lockBusy w' = false.
Proof.
  intros Hwf Hfree Hnone R w'. unfold w'. rewrite add_run by done.
  rewrite newRecordOf_no_id by done. fold R. cbn [fst snd finish sheet lockBusy].
  destruct (headers_nonempty this Hwf) as (h & rest & Hh).
  pose proof (idField_head this h rest Hh) as Hid.
  assert (exists tl, _toRowArray this R = CNum (nextId (sheet w)) :: tl) as [tl Hrow].
  { unfold _toRowArray. rewrite Hh. cbn [map]. eexists. f_equal.
    fold (keyOf h). rewrite <- Hid. unfold getProp, R.
    by rewrite lookup_insert_eq. }
  split_and!; try done.
  - apply lastRowOf_append. by rewrite Hrow.
  - apply rowAt_append_new.
  - unfold cellAt. by rewrite rowAt_append_new, Hrow.
Qed.

(** C2, as the code has it.  For an input without the identifier field, the
    record [add] returns is the input with the identifier field added,
    holding the computed identifier; every other key is as in the input, so
    a header field that the input lacks is not in the returned record.  The
    row written to the tab is the one that has a cell for every header
    field: the value the record has under that name, and the empty string
    where it has none and the name is not one of a member every object
    inherits. *)
Theorem add_returns_input_with_id (data : Record_) (w : World) :
  lockBusy w = false -> data !! idField this = None ->
  let R := <[idField this := VCell (CNum (nextId (sheet w)))]> data in
  let w' := snd (add this data w) in
  fst (add this data w) = Return R
  /\ R !! idField this = Some (VCell (CNum (nextId (sheet w))))
  /\ (forall k, k <> idField this -> R !! k = data !! k)
  /\ (forall k, k ∈ fieldNames this -> k <> idField this ->
        data !! k = None -> R !! k = None)
  /\ sheet w' = appendRowTo (sheet w) (_toRowArray this R)
  /\ length (_toRowArray this R) = length (headers this)
  /\ (forall i key v, headers this !! i = Some key -> R !! keyOf key = Some v ->
        _toRowArray this R !! i = Some (orEmpty v))
  /\ (forall i key, headers this !! i = Some key -> R !! keyOf key = None ->
        isInherited (keyOf key) = false ->
        _toRowArray this R !! i = Some (CStr "")).
Proof.
  intros Hfree Hnone R w'. unfold w'. rewrite add_run by done.
  rewrite newRecordOf_no_id by done. fold R. cbn [fst snd finish sheet].
  split_and!; try done.
  - apply lookup_insert_eq.
  - intros k Hk. by apply lookup_insert_ne.
  - intros k _ Hk Hk'. unfold R. by rewrite lookup_insert_ne.
  - apply length_toRowArray.
  - intros i key v Hi Hkey. unfold _toRowArray.
    change (map ?g ?l) with (g <$> l). rewrite list_lookup_fmap, Hi.
    cbn [fmap option_fmap option_map]. fold (keyOf key).
    unfold getProp. by rewrite Hkey.
  - intros i key Hi Hkey Hplain. unfold _toRowArray.
    change (map ?g ?l) with (g <$> l). rewrite list_lookup_fmap, Hi.
    cbn [fmap option_fmap option_map]. fold (keyOf key).
    rewrite getProp_plain by done. by rewrite Hkey.
Qed.

(** C3, as the code has it.  For an input without the identifier field, on a
    tab that has its header row and no data row carrying the computed
    identifier [X], and for a header without a column that has the name of
    a member every object inherits: [add] returns a record [R] with [X] in
    the identifier field, and the [find(X)] that follows returns the record
    of the new row.  That record has exactly the header fields, each with
    the value [R] has for it, or the empty string where [R] has none or a
    nullish one.  It is [R] itself when the keys of [R] are exactly the
    header fields and its values are strings, numbers or booleans. *)
Theorem add_then_find (data : Record_) (w : World) :
  wfDAO this -> plainFields this -> hasHeaderRow (sheet w) ->
  lockBusy w = false -> data !! idField this = None ->
  noMatch (sheet w) (VCell (CNum (nextId (sheet w)))) ->
  let X := VCell (CNum (nextId (sheet w))) in
  let R := <[idField this := X]> data in
  let w' := snd (add this data w) in
  let found := _toObject this (_toRowArray this R) in
  fst (add this data w) = Return R
  /\ getProp R (idField this) = X
  /\ fst (find this X w') = Return (Some found)
  /\ (forall k, k ∈ fieldNames this ->
        found !! k
        = Some (VCell (match R !! k with
                       | Some v => orEmpty v
                       | None => CStr ""
                       end)))
  /\ (forall k, k ∉ fieldNames this -> found !! k = None)
  /\ ((forall k, is_Some (R !! k) <-> k ∈ fieldNames this) ->
      (forall k v, R !! k = Some v -> exists c, v = VCell c) ->
      fst (find this X w') = Return (Some R)).
Proof.
  intros Hwf Hplain Hhead Hfree Hnone Hfresh X R w' found.
  pose proof (plainFields_protoFree this Hplain) as Hproto.
  destruct (add_appends data w Hwf Hfree Hnone)
    as (Hres & Hsheet & Hlast & Hrow & Hcell & _).
  fold X in Hres, Hsheet, Hrow. fold R in Hres, Hsheet, Hrow. fold w' in Hsheet, Hlast, Hrow, Hcell.
  assert (firstMatch (sheet w') X (S (lastRowOf (sheet w)))) as Hfirst.
  { unfold firstMatch, matchesAt, isDataRow, hasHeaderRow in *.
    rewrite Hlast. split_and!; try lia.
    - unfold idAt. by rewrite Hcell.
    - intros r Hr. rewrite (idAt_rowAt _ (sheet w) r r).
      + apply Hfresh. unfold isDataRow. lia.
      + rewrite Hsheet. apply rowAt_append_old. lia. }
  assert (recordAt this (sheet w') (S (lastRowOf (sheet w))) = found) as Hrec.
  { unfold recordAt, found. f_equal.
    destruct Hwf as [_ Hlen]. rewrite <- Hlen, <- (length_toRowArray this R).
    rewrite <- Hrow. apply readRow_exact. }
  assert (fst (find this X w') = Return (Some found)) as Hfind.
  { rewrite find_run by (by destruct Hwf).
    by rewrite (rowIndexOf_firstMatch _ _ _ Hfirst), Hrec. }
  assert (forall k, k ∈ fieldNames this -> k <> "__proto__") as Hne
    by (intros k Hk ->; by apply Hproto).
  split_and!; try done.
  - unfold getProp, R. by rewrite lookup_insert_eq.
  - intros k Hk. unfold found. rewrite toObject_toRowArray_lookup.
    rewrite decide_True by (split; [done | by apply Hne]).
    rewrite getProp_plain by (by apply Hplain). by destruct (R !! k).
  - intros k Hk. by apply toObject_lookup_notin.
  - intros Hdom Hcells. rewrite Hfind. unfold found.
    rewrite toObject_toRowArray_id; [done | | done].
    intros k. rewrite Hdom. split; [intros Hk; split; [done | by apply Hne] | by intros [Hk _]].
Qed.

End Add.

Section AddSequence.

Context {numeric : NumericStrings}.
Variable this : SheetDAO.

Lemma addAll_ids (inputs : list Record_) :
  wfDAO this ->
  Forall (fun data => data !! idField this = None) inputs ->
  forall (w : World) (n : nat),
    lockBusy w = false ->
    lastRowOf (sheet w) = S n ->
    (1 <= n -> cellAt (sheet w) (S n) 1 = CNum (Z.of_nat n)) ->
    exists rs,
      fst (addAll this inputs w) = Return rs
      /\ map (fun r => getProp r (idField this)) rs
         = map (fun k => VCell (CNum (Z.of_nat k))) (seq (S n) (length inputs)).
Proof.
  intros Hwf Hinputs. induction Hinputs as [|data rest Hnone _ IH];
    intros w n Hfree Hlast Hcell.
  - by exists [].
  - destruct (add_appends this data w Hwf Hfree Hnone)
      as (Hres & _ & Hlast' & _ & Hcell' & Hfree').
    assert (nextId (sheet w) = Z.of_nat (S n)) as Hnext.
    { destruct (decide (n = 0)) as [->|Hn].
      - apply nextId_no_data. lia.
      - rewrite (nextId_after_number (sheet w) (Z.of_nat n)); [lia | lia |].
        rewrite Hlast. apply Hcell. lia. }
    rewrite Hlast in Hlast', Hcell'. rewrite Hnext in Hcell', Hres.
    destruct (IH _ (S n) Hfree' Hlast' (fun _ => Hcell')) as (rs & Hrs & Hids).
    cbn [addAll]. unfold bindM at 1.
    destruct (add this data w) as [o w1]. cbn [fst snd] in *. subst o.
    unfold bindM. destruct (addAll this rest w1) as [o2 w2].
    cbn [fst] in Hrs. subst o2. cbn [fst ret].
    eexists. split; [done |].
    cbn [map length seq]. f_equal; [|exact Hids].
    unfold getProp. by rewrite lookup_insert_eq.
Qed.

(** X22. The identifiers of a run of [add] calls whose inputs have no
    identifier field, on a tab that starts with its header row only, are
    1, 2, ..., N in call order, and no call throws. *)
Lemma add_sequence_ids (inputs : list Record_) (w : World) :
  wfDAO this ->
  Forall (fun data => data !! idField this = None) inputs ->
  lockBusy w = false -> lastRowOf (sheet w) = 1 ->
  exists rs,
    fst (addAll this inputs w) = Return rs
    /\ map (fun r => getProp r (idField this)) rs
       = map (fun k => VCell (CNum (Z.of_nat k))) (seq 1 (length inputs)).
Proof.
  intros Hwf Hinputs Hfree Hlast.
  apply (addAll_ids inputs Hwf Hinputs w 0 Hfree Hlast). lia.
Qed.

End AddSequence.

#[local] Existing Instance decimalStrings.

(** C1.  The input carries the identifier field: on the tab Ann(1) the
    identifier computed is 2, and add({id: 99, name: "Zed"}) returns and
    writes the record with 99, the value of the caller. *)
Theorem add_keeps_caller_id_example :
  let w := peopleTab [ann] in
  let data := object [("id", num 99); ("name", str "Zed")] in
  nextId (sheet w) = 2%Z
  /\ fst (add people data w) = Return data
  /\ getProp data (idField people) = num 99
  /\ sheet (snd (add people data w))
     = [peopleHeader; ann; [CNum 99; CStr "Zed"; CStr ""]].
Proof. intros w data. split_and!; vm_compute; reflexivity. Qed.

(** C4.  Two [add] calls on the tab with its header row only, the first
    input carrying the identifier field: the identifiers returned are 10 and
    11, not 1 and 2. *)
Theorem add_sequence_caller_id_example :
  lastRowOf (sheet (peopleTab [])) = 1
  /\ fst (addAll people
            [object [("id", num 10); ("name", str "Ann")]; object [("name", str "Bo")]]
            (peopleTab []))
     = Return [object [("id", num 10); ("name", str "Ann")];
               object [("id", num 11); ("name", str "Bo")]].
Proof. split; vm_compute; reflexivity. Qed.

(** add({name: "Bo"}) on the tab Ann(1). *)
Lemma add_returns_input_with_id_witness :
  let w := peopleTab [ann] in
  fst (add people (object [("name", str "Bo")]) w)
  = Return (object [("id", num 2); ("name", str "Bo")])
  /\ sheet (snd (add people (object [("name", str "Bo")]) w))
     = [peopleHeader; ann; [CNum 2; CStr "Bo"; CStr ""]].
Proof.
  intros w.
  assert (object [("name", str "Bo")] !! idField people = None) as Hnone
    by (vm_compute; reflexivity).
  destruct (add_returns_input_with_id people (object [("name", str "Bo")]) w
              eq_refl Hnone) as (Hres & _ & _ & _ & Hsheet & _).
  split.
  - etrans; [exact Hres |]. vm_compute. reflexivity.
  - etrans; [exact Hsheet |]. vm_compute. reflexivity.
Defined.

(** The claim as stated fails on its own example: with the columns id, name,
    age and one record with id 1, add({name: "Bo"}) returns {id: 2, name:
    "Bo"}, a record without the field age. *)
Lemma add_return_lacks_missing_field :
  let w := peopleTab [ann] in
  let returned := fst (add people (object [("name", str "Bo")]) w) in
  returned = Return (object [("id", num 2); ("name", str "Bo")])
  /\ returned <> Return (object [("id", num 2); ("name", str "Bo"); ("age", str "")])
  /\ object [("id", num 2); ("name", str "Bo")] !! "age" = None.
Proof.
  intros w returned. split_and!.
  - vm_compute. reflexivity.
  - intros Heq. vm_compute in Heq. discriminate Heq.
  - vm_compute. reflexivity.
Qed.

(** add({name: "Bo", age: 41}) on the tab Ann(1), then find(2). *)
Lemma add_then_find_witness :
  let w := peopleTab [ann] in
  let data := object [("name", str "Bo"); ("age", num 41)] in
  fst (find people (num 2) (snd (add people data w)))
  = Return (Some (object [("id", num 2); ("name", str "Bo"); ("age", num 41)])).
Proof.
  intros w data.
  assert (hasHeaderRow (sheet w)) as Hhead by (vm_compute; lia).
  assert (data !! idField people = None) as Hnone by (vm_compute; reflexivity).
  assert (noMatch (sheet w) (VCell (CNum (nextId (sheet w))))) as Hfresh
    by (apply rowIndexOf_noMatch_iff; vm_compute; reflexivity).
  destruct (add_then_find people data w people_wf people_plain Hhead eq_refl Hnone Hfresh)
    as (_ & _ & Hfind & _).
  etrans; [exact Hfind |]. vm_compute. reflexivity.
Defined.

(** The claim as stated fails: on the tab Ann(1), add({name: "Bo"}) returns
    R = {id: 2, name: "Bo"}, and the find(2) that follows returns
    {id: 2, name: "Bo", age: ""}, which is not R. *)
Lemma add_then_find_differs :
  let w := peopleTab [ann] in
  let R := object [("id", num 2); ("name", str "Bo")] in
  fst (add people (object [("name", str "Bo")]) w) = Return R
  /\ getProp R (idField people) = num 2
  /\ fst (find people (num 2) (snd (add people (object [("name", str "Bo")]) w)))
     = Return (Some (object [("id", num 2); ("name", str "Bo"); ("age", str "")]))
  /\ fst (find people (num 2) (snd (add people (object [("name", str "Bo")]) w)))
     <> Return (Some R).
Proof.
  intros w R. split_and!; try (vm_compute; reflexivity).
  intros Heq. vm_compute in Heq. discriminate Heq.
Qed.

(** ** A run of the whole interface *)

(** Construction on the tab with its header row only, two [add] calls, an
    [update], a [find], a [remove] and [listAll]. *)
Example people_scenario :
  fst ((let! dao := constructor "people" in
        let! r1 := add dao (object [("name", str "Ann"); ("age", num 30)]) in
        let! r2 := add dao (object [("name", str "Bo")]) in
        let! updated := update dao (num 1) (object [("age", num 31)]) in
        let! found := find dao (num 1) in
        let! removed := remove dao (num 2) in
        let! all := listAll dao in
        ret (dao, r1, r2, updated, found, removed, all)) (peopleTab []))
  = Return
      (people,
       object [("id", num 1); ("name", str "Ann"); ("age", num 30)],
       object [("id", num 2); ("name", str "Bo")],
       true,
       Some (object [("id", num 1); ("name", str "Ann"); ("age", num 31)]),
       true,
       [object [("id", num 1); ("name", str "Ann"); ("age", num 31)]]).
Proof. vm_compute. reflexivity. Qed.

(** ** Construction *)

Section Construction.

Lemma lastCellOf_zero (r : Row) : lastCellOf r = 0 <-> hasContent r = false.
Proof.
  induction r as [|c r IH]; [done |]. cbn [lastCellOf hasContent existsb].
  destruct (lastCellOf r) as [|n].
  - destruct (isBlank c); cbn [negb orb]; [by apply IH | done].
  - split; [done |]. intros Hc. apply orb_false_elim in Hc as [_ Hr].
    by apply IH in Hr.
Qed.

Lemma lastColumnOf_zero (s : Sheet) : lastColumnOf s = 0 <-> emptyTab s.
Proof.
  unfold emptyTab. induction s as [|r s IH]; cbn [lastColumnOf foldr].
  - split; [|done]. intros _ r Hr. by apply elem_of_nil in Hr.
  - fold (lastColumnOf s). split.
    + intros Hmax r' Hr'. apply elem_of_cons in Hr' as [->|Hr'].
      * apply lastCellOf_zero. lia.
      * apply IH; [lia | done].
    + intros Hall.
      assert (lastCellOf r = 0) by (apply lastCellOf_zero, Hall; by left).
      assert (lastColumnOf s = 0) by (apply IH; intros r' Hr'; apply Hall; by right).
      lia.
Qed.

(** X1. Asked for a tab the file does not have, [create] throws the
    not-found error after the one call that looks the tab up: the tab there
    is is not read, and no instance is made. *)
Theorem create_unknown_tab (sheetId sheetName : string) (w : World) :
  sheetName <> tabName w ->
  create sheetId sheetName w
  = (Throw (SheetNotFound sheetName), logEvents [EvGetSheetByName sheetName] w).
Proof.
  intros Hname. unfold create, constructor, bindM, getSheetByName.
  by rewrite (proj2 (String.eqb_neq _ _) Hname).
Qed.

(** X2. On a tab without any content, [create] throws the empty-tab error:
    it asks for the tab and for its last column, and reads no cell. *)
Theorem create_empty_tab (sheetId : string) (w : World) :
  emptyTab (sheet w) ->
  create sheetId (tabName w) w
  = (Throw (SheetIsEmpty (tabName w)),
     logEvents [EvGetSheetByName (tabName w); EvGetLastColumn] w).
Proof.
  intros Hempty. apply lastColumnOf_zero in Hempty.
  unfold create, constructor, bindM, getSheetByName, getLastColumn.
  rewrite String.eqb_refl. cbn [negb sheet logEvent]. rewrite Hempty.
  unfold throw. world_eq.
Qed.

(** X3. On a tab with content, [create] returns an instance whose column
    count is the last column with content and whose header is row 1 over
    those columns, empty cells included; the instance is well formed and the
    tab is left as it was. *)
Theorem create_reads_header (sheetId : string) (w : World) :
  ~ emptyTab (sheet w) ->
  exists this w',
    create sheetId (tabName w) w = (Return this, w')
    /\ lastCol this = lastColumnOf (sheet w)
    /\ headers this = readRow (sheet w) 1 1 (lastColumnOf (sheet w))
    /\ (forall c, 1 <= c <= lastCol this ->
          index (headers this) (c - 1) = VCell (cellAt (sheet w) 1 c))
    /\ wfDAO this
    /\ sheet w' = sheet w.
Proof.
  intros Hcontent.
  assert (lastColumnOf (sheet w) <> 0) as Hcol
    by (intros Hz; by apply Hcontent, lastColumnOf_zero).
  unfold create, constructor, bindM, getSheetByName, getLastColumn, getValues,
    validRange.
  rewrite String.eqb_refl. cbn [negb sheet logEvent].
  destruct (lastColumnOf (sheet w)) as [|lc] eqn:Hlc; [done |].
  cbn [Nat.eqb Nat.leb andb]. unfold ret, readRange. cbn [seq map nth].
  eexists _, _. split; [done |]. cbn [lastCol headers sheet].
  split_and!; try done.
  - intros c Hc. unfold index, readRow.
    change (map ?g ?l) with (g <$> l). rewrite list_lookup_fmap.
    rewrite lookup_seq_lt by lia. cbn [fmap option_fmap option_map].
    do 2 f_equal. lia.
  - split; [done |]. cbn [headers lastCol]. apply length_readRow.
Qed.

End Construction.

(** create on a tab named otherwise; on a tab whose cells are all empty; on
    the tab Ann(1) with a fourth, unnamed column in use. *)
Lemma create_unknown_tab_witness :
  create "file" "staff" (peopleTab [ann])
  = (Throw (SheetNotFound "staff"),
     logEvents [EvGetSheetByName "staff"] (peopleTab [ann])).
Proof. apply create_unknown_tab. vm_compute. discriminate. Defined.

Lemma create_empty_tab_witness :
  fst (create "file" "people" (mkWorld "people" [[CStr ""; CStr ""]; []] false false []))
  = Throw (SheetIsEmpty "people").
Proof.
  assert (emptyTab
            (sheet (mkWorld "people" [[CStr ""; CStr ""]; []] false false [])))
    as Hempty.
  { intros r Hr. cbn [sheet] in Hr.
    apply elem_of_cons in Hr as [-> | Hr]; [reflexivity |].
    apply elem_of_cons in Hr as [-> | Hr]; [reflexivity |].
    by apply elem_of_nil in Hr. }
  exact (f_equal fst (create_empty_tab "file" _ Hempty)).
Defined.

Lemma create_reads_header_witness :
  exists this w',
    create "file" "people" (peopleTab [ann ++ [CStr "x"]]) = (Return this, w')
    /\ headers this = [CStr "id"; CStr "name"; CStr "age"; CStr ""].
Proof.
  destruct (create_reads_header "file" (peopleTab [ann ++ [CStr "x"]]))
    as (this & w' & Hrun & _ & Hheaders & _).
  - intros Hempty. specialize (Hempty peopleHeader). cbn [sheet peopleTab] in Hempty.
    assert (hasContent peopleHeader = false) as Hc by (apply Hempty; by left).
    vm_compute in Hc. discriminate Hc.
  - exists this, w'. split; [exact Hrun |].
    etrans; [exact Hheaders |]. vm_compute. reflexivity.
Defined.

(** ** listAll and the records read *)

Section Listing.

Variable this : SheetDAO.

Lemma readRow_rowAt (s s' : Sheet) (row row' col n : nat) :
  rowAt s row = rowAt s' row' -> readRow s row col n = readRow s' row' col n.
Proof. intros Heq. unfold readRow, cellAt. by rewrite Heq. Qed.

Lemma recordAt_rowAt (s s' : Sheet) (row row' : nat) :
  rowAt s row = rowAt s' row' -> recordAt this s row = recordAt this s' row'.
Proof. intros Heq. unfold recordAt. by rewrite (readRow_rowAt s s' row row'). Qed.

Lemma map_seq_from (A : Type) (g : nat -> A) (a n : nat) :
  map (fun i => g (a + i)) (seq 0 n) = map g (seq a n).
Proof.
  rewrite <- (map_map (Nat.add a) g). f_equal.
  change (map ?h ?l) with (h <$> l). rewrite fmap_add_seq. f_equal. lia.
Qed.

Lemma listAll_run (w : World) :
  lastCol this <> 0 ->
  listAll this w
  = (Return (recordsOf this (sheet w)), logEvents (listEvents this (sheet w)) w).
Proof.
  intros Hcol. unfold listAll, recordsOf, listEvents, bindM, getLastRow.
  cbn [sheet logEvent].
  destruct (lastRowOf (sheet w) <=? 1) eqn:Hlast.
  - apply Nat.leb_le in Hlast.
    replace (lastRowOf (sheet w) - 1) with 0 by lia. done.
  - apply Nat.leb_gt in Hlast. unfold getValues, validRange.
    destruct (lastRowOf (sheet w)) as [|[|n]]; [lia | lia |].
    destruct (lastCol this) as [|lc] eqn:Hlc; [done |].
    cbn [Nat.leb andb Nat.sub]. unfold readRange, ret. rewrite map_map.
    rewrite <- Hlc. change (fun x => _toObject this (readRow (sheet w) (2 + x) 1 (lastCol this)))
      with (fun x => recordAt this (sheet w) (2 + x)).
    rewrite (map_seq_from _ (recordAt this (sheet w)) 2).
    rewrite Hlc. world_eq.
Qed.

Lemma recordsOf_lookup (s : Sheet) (r : nat) :
  isDataRow s r -> recordsOf this s !! (r - 2) = Some (recordAt this s r).
Proof.
  intros [Hr1 Hr2]. unfold recordsOf.
  change (map ?g ?l) with (g <$> l). rewrite list_lookup_fmap.
  rewrite lookup_seq_lt by lia. cbn [fmap option_fmap option_map].
  do 2 f_equal. lia.
Qed.

(** X4. On a tab with its header row only, or with no content at all,
    [listAll] returns the empty list after asking for the last row; it reads
    no cell. *)
Theorem listAll_no_data (w : World) :
  lastRowOf (sheet w) <= 1 ->
  listAll this w = (Return [], logEvents [EvGetLastRow] w).
Proof.
  intros Hlast. unfold listAll, bindM, getLastRow.
  by rewrite (proj2 (Nat.leb_le _ _) Hlast).
Qed.

(** X5. [listAll] returns one record per row from row 2 to the last row with
    content, in row order, rows without content in between included; the
    record of a row is the one [find] would return for it.  The tab is left
    as it was. *)
Theorem listAll_rows (w : World) :
  lastCol this <> 0 ->
  exists all,
    fst (listAll this w) = Return all
    /\ length all = lastRowOf (sheet w) - 1
    /\ (forall r, isDataRow (sheet w) r ->
          all !! (r - 2) = Some (recordAt this (sheet w) r))
    /\ sheet (snd (listAll this w)) = sheet w.
Proof.
  intros Hcol. rewrite listAll_run by done. eexists. split; [done |].
  split_and!; [| apply recordsOf_lookup | done].
  unfold recordsOf. by rewrite length_map, length_seq.
Qed.

(** X6. A record that [find] returns is in the list that [listAll] returns
    on the same tab, at the position of the row found. *)
Theorem find_in_listAll (id : value) (rec : Record_) (w : World) :
  lastCol this <> 0 ->
  fst (find this id w) = Return (Some rec) ->
  exists all r,
    fst (listAll this w) = Return all
    /\ firstMatch (sheet w) id r
    /\ all !! (r - 2) = Some rec.
Proof.
  intros Hcol Hfind. rewrite find_run in Hfind by done.
  pose proof (rowIndexOf_spec (sheet w) id) as Hspec.
  destruct (rowIndexOf (sheet w) id) as [r|]; [|discriminate].
  cbn [fst] in Hfind. injection Hfind as <-.
  rewrite listAll_run by done. exists (recordsOf this (sheet w)), r.
  split_and!; [done | done |].
  apply recordsOf_lookup. by destruct Hspec as [[Hrow _] _].
Qed.

Lemma recordAt_shape (s : Sheet) (r : nat) :
  wfDAO this ->
  (forall k, is_Some (recordAt this s r !! k)
             <-> k ∈ fieldNames this /\ k <> "__proto__")
  /\ (forall k v, recordAt this s r !! k = Some v -> exists c, v = VCell c).
Proof.
  intros [_ Hlen]. split.
  - intros k. apply toObject_is_Some.
  - intros k v Hv. unfold recordAt in Hv.
    apply (toObject_cells this _ k v) in Hv; [done |].
    rewrite length_readRow. lia.
Qed.

(** X7. Every record that [find] or [listAll] returns has as keys the
    header names recorded at construction, whatever row 1 of the tab holds
    by now, except the name [__proto__], which never becomes a key; each
    value is a cell value, never [null] or [undefined]. *)
Theorem records_have_header_shape (id : value) (w : World) :
  wfDAO this ->
  (forall rec, fst (find this id w) = Return (Some rec) ->
     (forall k, is_Some (rec !! k) <-> k ∈ fieldNames this /\ k <> "__proto__")
     /\ (forall k v, rec !! k = Some v -> exists c, v = VCell c))
  /\ (forall all rec, fst (listAll this w) = Return all -> rec ∈ all ->
     (forall k, is_Some (rec !! k) <-> k ∈ fieldNames this /\ k <> "__proto__")
     /\ (forall k v, rec !! k = Some v -> exists c, v = VCell c)).
Proof.
  intros Hwf. pose proof Hwf as [Hcol _]. split.
  - intros rec Hfind. rewrite find_run in Hfind by done.
    destruct (rowIndexOf (sheet w) id) as [r|]; [|discriminate].
    cbn [fst] in Hfind. injection Hfind as <-. by apply recordAt_shape.
  - intros all rec Hall Hrec. rewrite listAll_run in Hall by done.
    cbn [fst] in Hall. injection Hall as <-.
    unfold recordsOf in Hrec. apply list_elem_of_In, in_map_iff in Hrec.
    destruct Hrec as (r & <- & _). by apply recordAt_shape.
Qed.

(** X8. [remove] takes no lock: it makes no call on the script lock, leaves
    the lock state as it was, and returns and deletes the same whether or not
    another execution keeps the lock. *)
Theorem remove_takes_no_lock (id : value) (w : World) :
  (exists evs,
     trace (snd (remove this id w)) = trace w ++ evs
     /\ forallb (fun ev => negb (isLockEvent ev)) evs = true)
  /\ lockHeld (snd (remove this id w)) = lockHeld w
  /\ (forall busy,
        let w2 := mkWorld (tabName w) (sheet w) (lockHeld w) busy (trace w) in
        fst (remove this id w2) = fst (remove this id w)
        /\ sheet (snd (remove this id w2)) = sheet (snd (remove this id w))).
Proof.
  assert (forall s, forallb (fun ev => negb (isLockEvent ev)) (lookupEvents s) = true)
    as Hlookup by (intros s; unfold lookupEvents; by destruct (lastRowOf s <=? 1)).
  split_and!.
  - rewrite remove_run. destruct (rowIndexOf (sheet w) id) as [r|];
      eexists; (split; [done |]); [|done].
    rewrite forallb_app, Hlookup. done.
  - rewrite remove_run. by destruct (rowIndexOf (sheet w) id).
  - intros busy w2. rewrite !remove_run. unfold w2. cbn [sheet].
    by destruct (rowIndexOf (sheet w) id).
Qed.

End Listing.

(** listAll on Ann(1), an empty row, Dee(5); find(5) on the same tab. *)
Lemma listAll_no_data_witness :
  listAll people (peopleTab []) = (Return [], logEvents [EvGetLastRow] (peopleTab [])).
Proof. apply listAll_no_data. vm_compute. lia. Defined.

Lemma listAll_rows_witness :
  exists all,
    fst (listAll people (peopleTab [ann; []; dee])) = Return all
    /\ length all = 3.
Proof.
  destruct (listAll_rows people (peopleTab [ann; []; dee])) as (all & Hall & Hlen & _).
  - simpl. lia.
  - exists all. split; [exact Hall | exact Hlen].
Defined.

Lemma find_in_listAll_witness :
  exists all r,
    fst (listAll people (peopleTab [ann; []; dee])) = Return all
    /\ firstMatch (sheet (peopleTab [ann; []; dee])) (num 5) r
    /\ all !! (r - 2)
       = Some (object [("id", num 5); ("name", str "Dee"); ("age", num 9)]).
Proof.
  apply find_in_listAll.
  - simpl. lia.
  - vm_compute. reflexivity.
Defined.

Lemma records_have_header_shape_witness :
  is_Some (object [("id", num 5); ("name", str "Dee"); ("age", num 9)] !! "salary")
  <-> "salary" ∈ fieldNames people /\ "salary" <> "__proto__".
Proof.
  destruct (records_have_header_shape people (num 5) (peopleTab [ann; dee]) people_wf)
    as [Hfind _].
  destruct (Hfind (object [("id", num 5); ("name", str "Dee"); ("age", num 9)]))
    as [Hkeys _]; [vm_compute; reflexivity |].
  exact (Hkeys "salary").
Defined.

(** ** Rows and records with distinct column names *)

Section Merge.

Variable this : SheetDAO.

Lemma fieldNames_lookup (i : nat) (key : cell) :
  headers this !! i = Some key -> fieldNames this !! i = Some (keyOf key).
Proof.
  intros Hi. unfold fieldNames. change (map ?g ?l) with (g <$> l).
  by rewrite list_lookup_fmap, Hi.
Qed.

Lemma fieldNames_elem (i : nat) (key : cell) :
  headers this !! i = Some key -> keyOf key ∈ fieldNames this.
Proof. intros Hi. apply (list_elem_of_lookup_2 _ i). by apply fieldNames_lookup. Qed.

(** With distinct names, a column is read into its own field. *)
Lemma toObject_lookup_distinct (rowArray : Row) (i : nat) (key : cell) :
  distinctFields this -> headers this !! i = Some key -> keyOf key <> "__proto__" ->
  _toObject this rowArray !! keyOf key = Some (index rowArray i).
Proof.
  intros Hnodup Hi Hproto.
  destruct (toObject_lookup_in this rowArray (keyOf key) (fieldNames_elem i key Hi) Hproto)
    as (j & key' & Hj & Hkey & ->).
  apply fieldNames_lookup in Hi, Hj. rewrite Hkey in Hj.
  by rewrite (NoDup_lookup _ i j (keyOf key) Hnodup Hi Hj).
Qed.

(** X9. With distinct column names, none of them [__proto__], writing back
    the record a row is read as gives the row itself: for a row as wide as
    the header, [_toRowArray (_toObject row) = row]. *)
Theorem row_round_trip (rowArray : Row) :
  distinctFields this -> protoFree this ->
  length rowArray = length (headers this) ->
  _toRowArray this (_toObject this rowArray) = rowArray.
Proof.
  intros Hnodup Hproto Hlen. apply list_eq. intros i. unfold _toRowArray.
  change (map ?g ?l) with (g <$> l). rewrite list_lookup_fmap.
  destruct (headers this !! i) as [key|] eqn:Hi; cbn [fmap option_fmap option_map].
  - fold (keyOf key). unfold getProp.
    rewrite (toObject_lookup_distinct rowArray i key Hnodup Hi)
      by (intros Heq; apply Hproto; rewrite <- Heq; by apply (fieldNames_elem i)).
    apply lookup_lt_Some in Hi. unfold index.
    destruct (lookup_lt_is_Some_2 rowArray i ltac:(lia)) as [c ->]. done.
  - apply lookup_ge_None in Hi. symmetry. apply lookup_ge_None. lia.
Qed.

(** X10. The merge of [update], for any input.  At the row found, a header
    field other than [__proto__] that the input has takes the input's value,
    [null] and [undefined] being written as the empty string; a field that
    the input lacks keeps its value; keys of the input that are no header
    field are dropped. *)
Theorem update_merges_input (id : value) (data : Record_) (w : World) (r : nat) :
  wfDAO this -> lockBusy w = false -> firstMatch (sheet w) id r ->
  let old := recordAt this (sheet w) r in
  let new := recordAt this (sheet (snd (update this id data w))) r in
  fst (update this id data w) = Return true
  /\ (forall k v, k ∈ fieldNames this -> k <> "__proto__" -> data !! k = Some v ->
        new !! k = Some (VCell (orEmpty v)))
  /\ (forall k, data !! k = None -> new !! k = old !! k)
  /\ (forall k, k ∉ fieldNames this -> new !! k = None).
Proof.
  intros Hwf Hfree Hfirst old new.
  destruct (update_found this id data w r Hwf Hfree Hfirst) as (Hres & _ & _ & Hrec).
  fold old in Hrec. fold new in Hrec.
  split_and!; [done | | |].
  - intros k v Hk Hproto Hv.
    rewrite Hrec, toObject_toRowArray_lookup, decide_True by done.
    unfold getProp, spread. by rewrite (lookup_union_Some_l _ _ _ _ Hv).
  - intros k Hk. rewrite Hrec, toObject_toRowArray_lookup.
    unfold getProp, spread. rewrite lookup_union_r by done.
    destruct (recordAt_shape this (sheet w) r Hwf) as [Hdom Hcells].
    fold old in Hdom, Hcells. case_decide as Hin.
    + apply Hdom in Hin as [x Hx]. rewrite Hx.
      by destruct (Hcells k x Hx) as [c ->].
    + destruct (old !! k) eqn:Hx; [|done].
      exfalso. apply Hin, Hdom. by eexists.
  - intros k Hk. rewrite Hrec. by apply toObject_lookup_notin.
Qed.

Lemma cellAt_rowAt (s s' : Sheet) (r r' c : nat) :
  rowAt s r = rowAt s' r' -> cellAt s r c = cellAt s' r' c.
Proof. intros Heq. unfold cellAt. by rewrite Heq. Qed.

Lemma index_readRow (s : Sheet) (r n i : nat) :
  i < n -> index (readRow s r 1 n) i = VCell (cellAt s r (S i)).
Proof.
  intros Hi. unfold index, readRow. change (map ?g ?l) with (g <$> l).
  rewrite list_lookup_fmap, lookup_seq_lt by done. done.
Qed.

(** The cells of the tab after an [update] that finds its row. *)
Lemma update_found_cells (id : value) (data : Record_) (w : World) (r : nat) :
  wfDAO this -> distinctFields this -> protoFree this -> lockBusy w = false ->
  firstMatch (sheet w) id r ->
  let s' := sheet (snd (update this id data w)) in
  (forall c key, 1 <= c -> headers this !! (c - 1) = Some key ->
     cellAt s' r c
     = match data !! keyOf key with
       | Some v => orEmpty v
       | None => cellAt (sheet w) r c
       end)
  /\ (forall c, lastCol this < c -> cellAt s' r c = cellAt (sheet w) r c)
  /\ (forall r', 1 <= r' -> r' <> r -> rowAt s' r' = rowAt (sheet w) r')
  /\ length s' = length (sheet w).
Proof.
  intros Hwf Hnodup Hproto Hfree Hfirst s'.
  destruct (update_found this id data w r Hwf Hfree Hfirst) as (_ & Hsheet & Hrow & _).
  fold s' in Hsheet, Hrow. pose proof Hwf as [Hcol Hlen].
  pose proof Hfirst as [[[Hr1 _] _] _].
  split_and!.
  - intros c key Hc Hkey. unfold cellAt at 1. rewrite Hrow.
    pose proof (lookup_lt_Some _ _ _ Hkey) as Hlt.
    rewrite app_nth1 by (rewrite length_toRowArray; lia).
    rewrite nth_lookup. unfold _toRowArray. change (map ?g ?l) with (g <$> l).
    rewrite list_lookup_fmap, Hkey. cbn [fmap option_fmap option_map default].
    fold (keyOf key). unfold getProp, spread.
    destruct (data !! keyOf key) as [v|] eqn:Hv.
    + by rewrite (lookup_union_Some_l _ _ _ _ Hv).
    + rewrite lookup_union_r by done. unfold recordAt.
      rewrite (toObject_lookup_distinct _ (c - 1) key Hnodup Hkey)
        by (intros Heq; apply Hproto; rewrite <- Heq; by apply (fieldNames_elem (c - 1))).
      rewrite index_readRow by lia. unfold Datatypes.id. cbn [orEmpty].
      by replace (S (c - 1)) with c by lia.
  - intros c Hc. unfold cellAt. rewrite Hrow.
    rewrite app_nth2 by (rewrite length_toRowArray; lia).
    rewrite length_toRowArray, Hlen, nth_drop_add. f_equal. lia.
  - intros r' Hr' Hne. rewrite Hsheet. apply rowAt_insert_other; lia.
  - rewrite Hsheet. apply length_insert.
Qed.

(** X11. With distinct column names, none of them [__proto__], [update]
    changes the tab cell by cell: in the row found, the cell under a column
    takes the input's value for that column's name when the input has one
    ([null] and [undefined] as the empty string) and is left as it was
    otherwise; cells to the right of the header and all other rows are left
    as they were.  An input without any header field changes no cell. *)
Theorem update_cells (id : value) (data : Record_) (w : World) (r : nat) :
  wfDAO this -> distinctFields this -> protoFree this -> lockBusy w = false ->
  firstMatch (sheet w) id r ->
  let s' := sheet (snd (update this id data w)) in
  (forall c key, 1 <= c -> headers this !! (c - 1) = Some key ->
     cellAt s' r c
     = match data !! keyOf key with
       | Some v => orEmpty v
       | None => cellAt (sheet w) r c
       end)
  /\ (forall c, lastCol this < c -> cellAt s' r c = cellAt (sheet w) r c)
  /\ (forall r' c, 1 <= r' -> r' <> r -> cellAt s' r' c = cellAt (sheet w) r' c)
  /\ ((forall k, k ∈ fieldNames this -> data !! k = None) ->
      forall r' c, 1 <= r' -> 1 <= c -> cellAt s' r' c = cellAt (sheet w) r' c).
Proof.
  intros Hwf Hnodup Hproto Hfree Hfirst s'.
  destruct (update_found_cells id data w r Hwf Hnodup Hproto Hfree Hfirst)
    as (Hin & Hout & Hother & _).
  fold s' in Hin, Hout, Hother.
  split_and!; [done | done | |].
  - intros r' c Hr' Hne. apply cellAt_rowAt. by apply Hother.
  - intros Hnone r' c Hr' Hc.
    destruct (decide (r' = r)) as [->|Hne];
      [| apply cellAt_rowAt; by apply Hother].
    destruct (headers this !! (c - 1)) as [key|] eqn:Hkey.
    + rewrite (Hin c key Hc Hkey).
      by rewrite (Hnone (keyOf key) (fieldNames_elem _ key Hkey)).
    + apply Hout. apply lookup_ge_None in Hkey. destruct Hwf as [_ Hlen]. lia.
Qed.

End Merge.

Lemma people_distinct : distinctFields people.
Proof.
  unfold distinctFields. apply (bool_decide_unpack _). vm_compute. exact I.
Qed.

Lemma row_round_trip_witness :
  _toRowArray people (_toObject people ann) = ann.
Proof.
  apply row_round_trip; [exact people_distinct | exact people_protoFree | reflexivity].
Defined.

(** update(2, {age: null, name: "Bob", note: "x"}) on Ann(1), Bo(2). *)
Lemma update_merges_input_witness :
  let data := object [("age", VNull); ("name", str "Bob"); ("note", str "x")] in
  recordAt people (sheet (snd (update people (num 2) data (peopleTab [ann; bo])))) 3 !! "age"
  = Some (str "").
Proof.
  intros data.
  assert (firstMatch (sheet (peopleTab [ann; bo])) (num 2) 3) as Hfirst
    by (apply rowIndexOf_firstMatch_iff; vm_compute; reflexivity).
  destruct (update_merges_input people (num 2) data (peopleTab [ann; bo]) 3
              people_wf eq_refl Hfirst) as (_ & Hset & _).
  apply (Hset "age" VNull).
  - apply list_elem_of_In. simpl. tauto.
  - discriminate.
  - vm_compute. reflexivity.
Defined.

(** update(2, {note: "x"}) on Ann(1), Bo(2): no cell changes. *)
Lemma update_cells_witness :
  cellAt (sheet (snd (update people (num 2) (object [("note", str "x")])
                        (peopleTab [ann; bo])))) 3 2
  = cellAt (sheet (peopleTab [ann; bo])) 3 2.
Proof.
  assert (firstMatch (sheet (peopleTab [ann; bo])) (num 2) 3) as Hfirst
    by (apply rowIndexOf_firstMatch_iff; vm_compute; reflexivity).
  destruct (update_cells people (num 2) (object [("note", str "x")]) (peopleTab [ann; bo]) 3
              people_wf people_distinct people_protoFree eq_refl Hfirst)
    as (_ & _ & _ & Hsame).
  apply Hsame; [| lia | lia]. intros k Hk. apply list_elem_of_In in Hk. simpl in Hk.
  destruct Hk as [<-|[<-|[<-|[]]]]; vm_compute; reflexivity.
Defined.

(** ** add, the rows and the lock *)

Section Appending.

Context {numeric : NumericStrings}.
Variable this : SheetDAO.

(** X12. With the lock free, [add] returns for every input, without
    throwing; the rows down to the last row with content are left as they
    were, and the row right under them is the new one, with one cell per
    header column. *)
Theorem add_keeps_rows (data : Record_) (w : World) :
  lockBusy w = false ->
  let s' := sheet (snd (add this data w)) in
  (exists R, fst (add this data w) = Return R)
  /\ (forall r, 1 <= r <= lastRowOf (sheet w) -> rowAt s' r = rowAt (sheet w) r)
  /\ length (rowAt s' (S (lastRowOf (sheet w)))) = length (headers this)
  /\ length s' = S (lastRowOf (sheet w)).
Proof.
  intros Hfree s'. unfold s'. rewrite add_run by done. cbn [fst snd finish sheet].
  split_and!.
  - by eexists.
  - intros r Hr. by apply rowAt_append_old.
  - by rewrite rowAt_append_new, length_toRowArray.
  - unfold appendRowTo. rewrite length_app, length_take_lastRow. simpl. lia.
Qed.

(** X13. After an [add] whose input has no identifier field, on a tab with
    its header row, [listAll] returns what it returned before, followed by
    the record of the new row. *)
Theorem add_extends_listAll (data : Record_) (w : World) :
  wfDAO this -> hasHeaderRow (sheet w) -> lockBusy w = false ->
  data !! idField this = None ->
  let R := <[idField this := VCell (CNum (nextId (sheet w)))]> data in
  exists before,
    fst (listAll this w) = Return before
    /\ fst (listAll this (snd (add this data w)))
       = Return (before ++ [_toObject this (_toRowArray this R)]).
Proof.
  intros Hwf Hhead Hfree Hnone R. pose proof Hwf as [Hcol Hlen].
  destruct (add_appends this data w Hwf Hfree Hnone)
    as (_ & Hsheet & Hlast & Hrow & _ & _).
  fold R in Hsheet, Hrow.
  rewrite !listAll_run by done. cbn [fst].
  exists (recordsOf this (sheet w)). split; [done |]. f_equal.
  unfold recordsOf. rewrite Hlast. unfold hasHeaderRow in Hhead.
  replace (S (lastRowOf (sheet w)) - 1) with (S (lastRowOf (sheet w) - 1)) by lia.
  rewrite seq_S, map_app. cbn [map]. f_equal.
  - apply map_ext_in. intros r Hr. apply in_seq in Hr.
    apply recordAt_rowAt. rewrite Hsheet. apply rowAt_append_old. lia.
  - f_equal. unfold recordAt.
    replace (2 + (lastRowOf (sheet w) - 1)) with (S (lastRowOf (sheet w))) by lia.
    f_equal. rewrite <- Hlen, <- (length_toRowArray this R), <- Hrow.
    apply readRow_exact.
Qed.

(** X14. The identifier [add] gives to an input without one comes from the
    last row with content alone: 1 on a tab without data rows, and [n + 1]
    when the identifier cell of the last row holds the number [n], a safe
    integer below 2^53, whatever the rows above hold. *)
Theorem add_numbers_from_last_row (data : Record_) (w : World) :
  lockBusy w = false -> data !! idField this = None ->
  (lastRowOf (sheet w) <= 1 ->
     fst (add this data w) = Return (<[idField this := VCell (CNum 1)]> data))
  /\ (forall n, 2 <= lastRowOf (sheet w) ->
        cellAt (sheet w) (lastRowOf (sheet w)) 1 = CNum n ->
        (- 2 ^ 53 <= n < 2 ^ 53)%Z ->
        fst (add this data w) = Return (<[idField this := VCell (CNum (n + 1))]> data)).
Proof.
  intros Hfree Hnone. rewrite add_run by done. rewrite newRecordOf_no_id by done.
  cbn [fst]. unfold nextId. split.
  - intros Hlast. by rewrite (proj2 (Nat.leb_le _ _) Hlast).
  - intros n Hlast Hcell _.
    rewrite (proj2 (Nat.leb_gt _ _)) by lia. rewrite Hcell. cbn [ToNumber orZero].
    by destruct (Z.eqb_spec n 0) as [->|].
Qed.

(** X15. With the lock free, the platform calls of [add] and of [update]
    start with the wait for the lock, with a timeout of 30000 ms, and end
    with its release; every read and write of the tab lies in between, and
    the lock is not asked for a second time. *)
Theorem lock_brackets_calls (id : value) (data : Record_) (w : World) :
  wfDAO this -> lockBusy w = false ->
  (exists evs,
     trace (snd (add this data w))
     = trace w ++ [EvWaitLock 30000] ++ evs ++ [EvReleaseLock]
     /\ forallb (fun ev => negb (isLockEvent ev)) evs = true)
  /\ (exists evs,
     trace (snd (update this id data w))
     = trace w ++ [EvWaitLock 30000] ++ evs ++ [EvReleaseLock]
     /\ forallb (fun ev => negb (isLockEvent ev)) evs = true).
Proof.
  intros Hwf Hfree.
  assert (forall s, forallb (fun ev => negb (isLockEvent ev)) (lookupEvents s) = true)
    as Hlookup by (intros s; unfold lookupEvents; by destruct (lastRowOf s <=? 1)).
  split.
  - rewrite add_run by done. cbn [snd finish trace]. unfold addEvents.
    destruct (lastRowOf (sheet w) <=? 1).
    + by exists [EvGetLastRow; EvAppendRow].
    + by exists [EvGetLastRow; EvGetValues (lastRowOf (sheet w)) 1 1 1; EvAppendRow].
  - destruct (rowIndexOf (sheet w) id) as [r|] eqn:Hrow.
    + rewrite (update_run_some this id data w r Hfree Hwf Hrow).
      cbn [snd finish trace].
      exists (lookupEvents (sheet w)
              ++ [EvGetValues r 1 1 (lastCol this); EvSetValues r 1 1 (lastCol this)]).
      split; [by rewrite <- !app_assoc |].
      by rewrite forallb_app, Hlookup.
    + rewrite (update_run_none this id data w Hfree Hrow).
      cbn [snd finish trace]. exists (lookupEvents (sheet w)). by split.
Qed.

End Appending.

(** add({name: 7}) on Ann(1), Bo(2); add({name: "Bo"}) on Dee(5), Ann(1). *)
Lemma add_keeps_rows_witness :
  let w := peopleTab [ann; bo] in
  rowAt (sheet (snd (add people (object [("name", num 7)]) w))) 3 = rowAt (sheet w) 3.
Proof.
  intros w.
  destruct (add_keeps_rows people (object [("name", num 7)]) w eq_refl)
    as (_ & Hrows & _).
  apply Hrows. vm_compute. lia.
Defined.

Lemma add_extends_listAll_witness :
  let w := peopleTab [ann] in
  exists before,
    fst (listAll people w) = Return before
    /\ fst (listAll people (snd (add people (object [("name", str "Bo")]) w)))
       = Return (before ++ [object [("id", num 2); ("name", str "Bo"); ("age", str "")]]).
Proof.
  intros w.
  assert (hasHeaderRow (sheet w)) as Hhead by (vm_compute; lia).
  assert (object [("name", str "Bo")] !! idField people = None) as Hnone
    by (vm_compute; reflexivity).
  destruct (add_extends_listAll people (object [("name", str "Bo")]) w
              people_wf Hhead eq_refl Hnone) as (before & Hbefore & Hafter).
  exists before. split; [exact Hbefore |].
  etrans; [exact Hafter |]. do 2 f_equal; vm_compute; reflexivity.
Defined.

Lemma add_numbers_from_last_row_witness :
  fst (add people (object [("name", str "Bo")]) (peopleTab [dee; ann]))
  = Return (<["id" := num 2]> (object [("name", str "Bo")])).
Proof.
  assert (object [("name", str "Bo")] !! idField people = None) as Hnone
    by (vm_compute; reflexivity).
  destruct (add_numbers_from_last_row people (object [("name", str "Bo")])
              (peopleTab [dee; ann]) eq_refl Hnone) as (_ & Hnum).
  apply (Hnum 1%Z); first [reflexivity | vm_compute; lia | lia].
Defined.

Lemma lock_brackets_calls_witness :
  exists evs,
    trace (snd (update people (num 1) (object [("age", num 31)]) (peopleTab [ann])))
    = [] ++ [EvWaitLock 30000] ++ evs ++ [EvReleaseLock]
    /\ forallb (fun ev => negb (isLockEvent ev)) evs = true.
Proof.
  destruct (lock_brackets_calls people (num 1) (object [("age", num 31)])
              (peopleTab [ann]) people_wf eq_refl) as [_ Hupdate].
  exact Hupdate.
Defined.

(** ** How the operations compose *)

Section Composition.

Context {numeric : NumericStrings}.
Variable this : SheetDAO.







Lemma lastRowOf_delete_full (s : Sheet) (r : nat) :
  2 <= r <= lastRowOf s ->
  (forall r', isDataRow s r' -> hasContent (rowAt s r') = true) ->
  lastRowOf (deleteRowOf s r) - 1 = lastRowOf s - 2.
Proof.
  intros Hr Hfull.
  pose proof (lastRowOf_delete s r ltac:(lia)) as Hless.
  destruct (decide (lastRowOf s = 2)) as [Htwo|Hmore]; [lia |].
  enough (lastRowOf s - 1 <= lastRowOf (deleteRowOf s r)) by lia.
  apply lastRowOf_max; [lia |].
  destruct (decide (r <= lastRowOf s - 1)) as [Hbefore|Hlast].
  - rewrite rowAt_delete_after by lia.
    replace (S (lastRowOf s - 1)) with (lastRowOf s) by lia.
    apply lastRowOf_content. lia.
  - rewrite rowAt_delete_before by lia. apply Hfull. unfold isDataRow. lia.
Qed.

(** X17. On a tab whose data rows all have content, a [remove] that finds
    its row takes exactly that record out of what [listAll] returns; the
    other records stay, in their order. *)
Theorem remove_shrinks_listAll (id : value) (w : World) (r : nat) :
  lastCol this <> 0 -> firstMatch (sheet w) id r ->
  (forall r', isDataRow (sheet w) r' -> hasContent (rowAt (sheet w) r') = true) ->
  exists before,
    fst (listAll this w) = Return before
    /\ fst (remove this id w) = Return true
    /\ fst (listAll this (snd (remove this id w))) = Return (delete (r - 2) before).
Proof.
  intros Hcol Hfirst Hfull. pose proof Hfirst as [[[Hr1 Hr2] _] _].
  rewrite remove_run, (rowIndexOf_firstMatch _ _ _ Hfirst).
  rewrite !listAll_run by done. cbn [fst snd setSheet sheet].
  exists (recordsOf this (sheet w)). split_and!; [done | done |]. f_equal.
  unfold recordsOf. rewrite (lastRowOf_delete_full _ r) by done.
  apply list_eq. intros i. change (map ?g ?l) with (g <$> l).
  destruct (decide (i < r - 2)) as [Hlt|Hge].
  - rewrite list_lookup_delete_lt by done. rewrite !list_lookup_fmap.
    rewrite !lookup_seq_lt by lia. cbn [fmap option_fmap option_map]. f_equal.
    apply recordAt_rowAt, rowAt_delete_before. lia.
  - rewrite list_lookup_delete_ge by lia. rewrite !list_lookup_fmap.
    destruct (decide (i < lastRowOf (sheet w) - 2)) as [Hin|Hout].
    + rewrite !lookup_seq_lt by lia. cbn [fmap option_fmap option_map]. f_equal.
      apply recordAt_rowAt. rewrite rowAt_delete_after by lia. f_equal.
    + rewrite !lookup_seq_ge by lia. done.
Qed.

End Composition.

Section UpdateThenFind.

Variable this : SheetDAO.

Lemma cellAt_content (s : Sheet) (r c : nat) :
  1 <= c -> isBlank (cellAt s r c) = false -> hasContent (rowAt s r) = true.
Proof.
  intros Hc Hblank. unfold cellAt in Hblank. unfold hasContent.
  apply existsb_exists. exists (nth (c - 1) (rowAt s r) blank).
  split; [|by rewrite Hblank].
  destruct (decide (c - 1 < length (rowAt s r))) as [Hin|Hout].
  - by apply nth_In.
  - rewrite nth_overflow in Hblank by lia. done.
Qed.

Lemma idAt_not_blank (s : Sheet) (r : nat) :
  idAt s r <> "" -> isBlank (cellAt s r 1) = false.
Proof.
  unfold idAt. intros Hid. destruct (cellAt s r 1) as [[|a t]| | |]; done.
Qed.

(** X18. [find] right after [update], with distinct column names, none of
    them [__proto__].  When the input has no identifier field and the
    identifier is not the empty string, the record is still found at its
    row, the last row with content is the same, and [find(id)] returns the
    merged record that was written. *)
Theorem update_then_find (id : value) (data : Record_) (w : World) (r : nat) :
  wfDAO this -> distinctFields this -> protoFree this -> lockBusy w = false ->
  firstMatch (sheet w) id r ->
  data !! idField this = None -> ToString id <> "" ->
  let w' := snd (update this id data w) in
  firstMatch (sheet w') id r
  /\ lastRowOf (sheet w') = lastRowOf (sheet w)
  /\ fst (find this id w')
     = Return (Some (_toObject this
                       (_toRowArray this (spread (recordAt this (sheet w) r) data)))).
Proof.
  intros Hwf Hnodup Hproto Hfree Hfirst Hnone Hid w'.
  destruct (update_found this id data w r Hwf Hfree Hfirst) as (_ & _ & _ & Hrec).
  destruct (update_found_cells this id data w r Hwf Hnodup Hproto Hfree Hfirst)
    as (Hin & _ & Hother & _).
  fold w' in Hrec, Hin, Hother.
  destruct (headers_nonempty this Hwf) as (h & rest & Hh).
  pose proof (idField_head this h rest Hh) as Hkey.
  pose proof Hfirst as [[[Hr1 Hr2] Hmatch] Hmin].
  assert (cellAt (sheet w') r 1 = cellAt (sheet w) r 1) as Hcell.
  { rewrite (Hin 1 h); [| lia | by rewrite Hh]. by rewrite <- Hkey, Hnone. }
  assert (forall r', 1 <= r' -> idAt (sheet w') r' = idAt (sheet w) r') as Hids.
  { intros r' Hr'. destruct (decide (r' = r)) as [->|Hne].
    - unfold idAt. by rewrite Hcell.
    - apply idAt_rowAt. by apply Hother. }
  assert (hasContent (rowAt (sheet w') r) = true) as Hcontent.
  { apply (cellAt_content _ r 1); [lia |]. rewrite Hcell.
    apply idAt_not_blank. by rewrite Hmatch. }
  assert (lastRowOf (sheet w') = lastRowOf (sheet w)) as Hlast.
  { apply Nat.le_antisymm.
    - destruct (decide (lastRowOf (sheet w') <= lastRowOf (sheet w))) as [|Hgt]; [done |].
      pose proof (lastRowOf_content (sheet w') ltac:(lia)) as Hc.
      rewrite Hother in Hc by lia. apply lastRowOf_max in Hc; lia.
    - apply lastRowOf_max; [lia |].
      destruct (decide (lastRowOf (sheet w) = r)) as [->|Hne]; [done |].
      rewrite Hother by lia. apply lastRowOf_content. lia. }
  assert (firstMatch (sheet w') id r) as Hfirst'.
  { unfold firstMatch, matchesAt, isDataRow. rewrite Hlast.
    split_and!; [lia | lia | by rewrite Hids by lia |].
    intros r' Hr'. rewrite Hids by lia. by apply Hmin. }
  split_and!; [done | done |].
  rewrite find_run by (by destruct Hwf).
  by rewrite (rowIndexOf_firstMatch _ _ _ Hfirst'), Hrec.
Qed.

End UpdateThenFind.


(** remove(2) on Ann(1), Bo(2), Dee(5). *)
Lemma remove_shrinks_listAll_witness :
  let w := peopleTab [ann; bo; dee] in
  exists before,
    fst (listAll people w) = Return before
    /\ fst (remove people (num 2) w) = Return true
    /\ fst (listAll people (snd (remove people (num 2) w))) = Return (delete 1 before).
Proof.
  intros w. apply (remove_shrinks_listAll people (num 2) w 3).
  - simpl. lia.
  - apply rowIndexOf_firstMatch_iff. vm_compute. reflexivity.
  - intros r' [Hr1 Hr2]. change (lastRowOf (sheet w)) with 4 in Hr2.
    assert (r' = 2 \/ r' = 3 \/ r' = 4) as [-> | [-> | ->]] by lia; reflexivity.
Defined.

(** update(1, {age: 31}) on Ann(1), then find(1). *)
Lemma update_then_find_witness :
  let w := peopleTab [ann] in
  fst (find people (num 1) (snd (update people (num 1) (object [("age", num 31)]) w)))
  = Return (Some (object [("id", num 1); ("name", str "Ann"); ("age", num 31)])).
Proof.
  intros w.
  assert (firstMatch (sheet w) (num 1) 2) as Hfirst
    by (apply rowIndexOf_firstMatch_iff; vm_compute; reflexivity).
  assert (object [("age", num 31)] !! idField people = None) as Hnone
    by (vm_compute; reflexivity).
  assert (ToString (num 1) <> "") as Hid by (vm_compute; discriminate).
  destruct (update_then_find people (num 1) (object [("age", num 31)]) w 2
              people_wf people_distinct people_protoFree eq_refl Hfirst Hnone Hid)
    as (_ & _ & Hfind).
  etrans; [exact Hfind |]. vm_compute. reflexivity.
Defined.

(** ** Reading *)

Section Reading.

Variable this : SheetDAO.

(** X19. [find] and [listAll] only read: they make no call on the script
    lock and no write to the tab, leave the tab and the lock state as they
    were, and return the same whether or not another execution keeps the
    lock. *)
Theorem reads_take_no_lock (id : value) (w : World) :
  lastCol this <> 0 ->
  let quiet := fun ev => negb (isLockEvent ev) && negb (writesSheet ev) in
  ((exists evs, trace (snd (find this id w)) = trace w ++ evs
                /\ forallb quiet evs = true)
   /\ lockHeld (snd (find this id w)) = lockHeld w
   /\ sheet (snd (find this id w)) = sheet w
   /\ (forall busy,
         fst (find this id (mkWorld (tabName w) (sheet w) (lockHeld w) busy (trace w)))
         = fst (find this id w)))
  /\ ((exists evs, trace (snd (listAll this w)) = trace w ++ evs
                   /\ forallb quiet evs = true)
      /\ lockHeld (snd (listAll this w)) = lockHeld w
      /\ sheet (snd (listAll this w)) = sheet w
      /\ (forall busy,
            fst (listAll this (mkWorld (tabName w) (sheet w) (lockHeld w) busy (trace w)))
            = fst (listAll this w))).
Proof.
  intros Hcol quiet.
  assert (forall s, forallb quiet (lookupEvents s) = true)
    as Hlookup by (intros s; unfold lookupEvents; by destruct (lastRowOf s <=? 1)).
  split; split_and!.
  - rewrite find_run by done. destruct (rowIndexOf (sheet w) id) as [r|];
      eexists; (split; [done |]); [|done].
    by rewrite forallb_app, Hlookup.
  - rewrite find_run by done. by destruct (rowIndexOf (sheet w) id).
  - rewrite find_run by done. by destruct (rowIndexOf (sheet w) id).
  - intros busy. rewrite !find_run by done. cbn [sheet].
    by destruct (rowIndexOf (sheet w) id).
  - rewrite listAll_run by done. eexists. split; [done |].
    unfold listEvents. by destruct (lastRowOf (sheet w) <=? 1).
  - by rewrite listAll_run.
  - by rewrite listAll_run.
  - intros busy. by rewrite !listAll_run.
Qed.

Lemma fold_step_last (rowArray hs : Row) (n : nat) (acc : Record_) (i : nat) (key : cell) :
  hs !! i = Some key -> keyOf key <> "__proto__" ->
  (forall j key', i < j -> hs !! j = Some key' -> keyOf key' <> keyOf key) ->
  fold_left (setField rowArray) (imap (fun i key => (n + i, key)) hs) acc !! keyOf key
  = Some (index rowArray (n + i)).
Proof.
  intros Hi Hproto. revert n acc i Hi.
  induction hs as [|h t IH]; intros n acc i Hi Hlast; [done |].
  rewrite fold_step_cons. destruct i as [|i].
  - injection Hi as ->. rewrite fold_step_notin.
    + by apply afterField_same.
    + intros Hin. apply list_elem_of_In, in_map_iff in Hin as (key' & Hkey' & Hin').
      apply list_elem_of_In, list_elem_of_lookup in Hin' as [j Hj].
      by apply (Hlast (S j) key' ltac:(lia) Hj).
  - rewrite (IH (S n) _ i Hi).
    + do 2 f_equal. lia.
    + intros j key' Hj Hkey'. apply (Hlast (S j) key'); [lia | done].
Qed.

(** X20. When several columns of the header have the same name, other than
    [__proto__], the record a row is read as holds, under that name, the
    cell of the last such column. *)
Theorem record_takes_last_column (rowArray : Row) (i : nat) (key : cell) :
  headers this !! i = Some key -> keyOf key <> "__proto__" ->
  (forall j key', i < j -> headers this !! j = Some key' -> keyOf key' <> keyOf key) ->
  _toObject this rowArray !! keyOf key = Some (index rowArray i).
Proof.
  intros Hi Hproto Hlast. rewrite toObject_unfold.
  by rewrite (fold_step_last rowArray (headers this) 0 ∅ i key Hi Hproto Hlast).
Qed.

End Reading.

Lemma reads_take_no_lock_witness :
  fst (find people (num 1) (peopleTabBusy [ann])) = fst (find people (num 1) (peopleTab [ann])).
Proof.
  destruct (reads_take_no_lock people (num 1) (peopleTab [ann])) as [(_ & _ & _ & Hbusy) _].
  - simpl. lia.
  - exact (Hbusy true).
Defined.

(** A header with the name "tag" on columns 2 and 3: the record has the cell
    of column 3. *)
Lemma record_takes_last_column_witness :
  _toObject (mkSheetDAO 3 [CStr "id"; CStr "tag"; CStr "tag"])
    [CNum 1; CStr "old"; CStr "new"] !! "tag"
  = Some (str "new").
Proof.
  apply (record_takes_last_column (mkSheetDAO 3 [CStr "id"; CStr "tag"; CStr "tag"])
           [CNum 1; CStr "old"; CStr "new"] 2 (CStr "tag")).
  - reflexivity.
  - discriminate.
  - intros j key' Hj Hkey'. cbn [headers] in Hkey'.
    apply lookup_lt_Some in Hkey'. simpl in Hkey'. lia.
Defined.

(** add({id: 99, name: "Zed"}) on Ann(1). *)
Lemma add_caller_id_kept_witness :
  let data := object [("id", num 99); ("name", str "Zed")] in
  fst (add people data (peopleTab [ann])) = Return data.
Proof.
  intros data.
  assert (data !! idField people = Some (num 99)) as Hid by (vm_compute; reflexivity).
  destruct (add_caller_id_kept people data (num 99) (peopleTab [ann]) eq_refl Hid)
    as [Hres _].
  exact Hres.
Defined.

(** Three [add] calls on the tab with its header row only. *)
Lemma add_sequence_ids_witness :
  exists rs,
    fst (addAll people
           [object [("name", str "Ann")]; object [("name", str "Bo")]; object []]
           (peopleTab []))
    = Return rs
    /\ map (fun r => getProp r (idField people)) rs = [num 1; num 2; num 3].
Proof.
  apply (add_sequence_ids people
           [object [("name", str "Ann")]; object [("name", str "Bo")]; object []]
           (peopleTab []) people_wf).
  - repeat constructor; vm_compute; reflexivity.
  - reflexivity.
  - vm_compute. reflexivity.
Defined.
